(** * dbconvert: the SQLite-to-SQL exporter of [index.ts]

    A shallow embedding of the class [SQLiteToSQLExporter] and of the
    host-language operations it calls, followed by the properties of the
    type mapper, the statement renderer and the export run.

    Modelling conventions.
    - A JavaScript string is a [string]: a sequence of characters.  Case
      mapping is the ASCII one ([A-Z] against [a-z]); every other character
      is left as it is, which is what the host does on ASCII input.
    - A promise is a computation that reads and extends a trace of the
      effects performed so far (database queries, file writes) and either
      resolves with a value or rejects with an error; [await] is the bind.
    - The database engine is an environment: what each query returns (rows
      or an error) is given, the exporter's own code is computed.
    - [console.log] calls are not part of the model. *)

From Stdlib Require Import String Ascii List Bool Arith NArith ZArith Lia.
From Stdlib Require Import Sorted Permutation.
Import ListNotations.
Open Scope list_scope.
Open Scope string_scope.

(** ** Host-language operations *)

Module JS.

(** The line feed, the separator of [sqlStatements.join]. *)
Definition LF : string := String (ascii_of_nat 10) EmptyString.

Definition isUpper (c : ascii) : bool :=
  let n := N_of_ascii c in (65 <=? n)%N && (n <=? 90)%N.

Definition isLower (c : ascii) : bool :=
  let n := N_of_ascii c in (97 <=? n)%N && (n <=? 122)%N.

Definition lowerChar (c : ascii) : ascii :=
  if isUpper c then ascii_of_N (N_of_ascii c + 32) else c.

Definition upperChar (c : ascii) : ascii :=
  if isLower c then ascii_of_N (N_of_ascii c - 32) else c.

Fixpoint mapChars (f : ascii -> ascii) (s : string) : string :=
  match s with
  | EmptyString => EmptyString
  | String c s' => String (f c) (mapChars f s')
  end.

(** [s.toLowerCase()] and [s.toUpperCase()]. *)
Definition toLowerCase (s : string) : string := mapChars lowerChar s.
Definition toUpperCase (s : string) : string := mapChars upperChar s.

(** [s.includes(needle)]: [needle] occurs in [s] at some position. *)
Fixpoint includes (s needle : string) : bool :=
  match s with
  | EmptyString => String.prefix needle EmptyString
  | String _ s' => String.prefix needle s || includes s' needle
  end.

(** [s.startsWith(p)]. *)
Definition startsWith (s p : string) : bool := String.prefix p s.

(** [s.replace(/c/g, by)] for a one-character pattern: every occurrence of
    [c] is replaced by [by]. *)
Fixpoint replaceAll (c : ascii) (by_ : string) (s : string) : string :=
  match s with
  | EmptyString => EmptyString
  | String d s' =>
      if Ascii.eqb d c then by_ ++ replaceAll c by_ s'
      else String d (replaceAll c by_ s')
  end.

(** Truthiness of a number: every number but zero. *)
Definition truthy (n : Z) : bool := negb (n =? 0)%Z.

(** The values a cell of a result row can hold.  A number and a buffer
    carry the text their conversion to a string produces; how that text is
    computed from the binary value is the host's business. *)
Inductive value : Type :=
| Undefined
| Null
| Str (s : string)
| Num (shown : string)
| Buf (shown : string).

(** What [Array.prototype.join] writes for an element: nothing for
    [undefined] and [null], the element's string conversion otherwise. *)
Definition joinText (v : value) : string :=
  match v with
  | Undefined | Null => EmptyString
  | Str s => s
  | Num t | Buf t => t
  end.

(** [xs.join(sep)] on an array of strings, and on an array of values. *)
Definition join (sep : string) (xs : list string) : string :=
  String.concat sep xs.

Definition joinValues (sep : string) (xs : list value) : string :=
  join sep (map joinText xs).

(** An object with string keys, as the list of its own properties in the
    order [Object.keys] enumerates them. *)
Definition object : Type := list (string * value).

Definition keys (o : object) : list string := map fst o.

(** [o[k]]: the own property, [undefined] when there is none (rows are
    plain records; what an object inherits is not modelled). *)
Fixpoint get (o : object) (k : string) : value :=
  match o with
  | [] => Undefined
  | (k', v) :: o' => if String.eqb k' k then v else get o' k
  end.

End JS.

(** ** The database engine, as far as the three queries go *)

Module Sqlite.

(** [x LIKE pattern] with the default settings: [%] stands for any run of
    characters, [_] for any one character, letters compare without case. *)
Fixpoint like (pattern x : string) : bool :=
  match pattern with
  | EmptyString => match x with EmptyString => true | _ => false end
  | String p pattern' =>
      if Ascii.eqb p "%"%char then
        (fix anyRun (y : string) : bool :=
           like pattern' y ||
           match y with
           | EmptyString => false
           | String _ y' => anyRun y'
           end) x
      else
        match x with
        | EmptyString => false
        | String c x' =>
            (Ascii.eqb p "_"%char
             || Ascii.eqb (JS.lowerChar p) (JS.lowerChar c))
            && like pattern' x'
        end
  end.

(** [ORDER BY name] under the binary collation: ascending by
    [String.leb]. *)
Fixpoint insertSorted (x : string) (l : list string) : list string :=
  match l with
  | [] => [x]
  | y :: l' => if String.leb x y then x :: l else y :: insertSorted x l'
  end.

Fixpoint orderBy (l : list string) : list string :=
  match l with
  | [] => []
  | x :: l' => insertSorted x (orderBy l')
  end.

(** The binary order of names, as propositions. *)
Definition nameLe (x y : string) : Prop := String.leb x y = true.
Definition nameLt (x y : string) : Prop := String.ltb x y = true.

(** A row of the catalog [sqlite_master]: the two columns the query
    reads. *)
Record masterRow : Type := mkMasterRow {
  mtype : string;
  mname : string
}.

(** A row of the result of the query of [getTables]: one column. *)
Record nameRow : Type := mkNameRow {
  name : string
}.

(** [SELECT name FROM sqlite_master
     WHERE type='table' AND name NOT LIKE 'sqlite_%' ORDER BY name]. *)
Definition selectNames (master : list masterRow) : list nameRow :=
  map mkNameRow
    (orderBy
       (map mname
          (filter (fun r => String.eqb (mtype r) "table"
                            && negb (like "sqlite_%" (mname r)))
                  master))).

(** The names in the rows of that result, in their order. *)
Definition selectTableNames (master : list masterRow) : list string :=
  map name (selectNames master).

(** The names the engine keeps for itself. *)
Definition reservedName (n : string) : bool :=
  String.prefix "sqlite_" (JS.toLowerCase n).

End Sqlite.

(** ** Promises over a trace of effects *)

Module Async.

Definition error : Type := string.

Inductive outcome (A : Type) : Type :=
| Resolved (a : A)
| Rejected (e : error).
Arguments Resolved {A} a.
Arguments Rejected {A} e.

Definition isResolved {A : Type} (o : outcome A) : bool :=
  match o with Resolved _ => true | Rejected _ => false end.

(** One effect on the outside world, with whether it succeeded. *)
Inductive effect : Type :=
| DbAll (sql : string) (ok : bool)
| FsWriteFile (path content : string) (ok : bool).

Definition trace : Type := list effect.

Definition promise (A : Type) : Type := trace -> outcome A * trace.

Definition resolve {A : Type} (a : A) : promise A :=
  fun tr => (Resolved a, tr).

Definition reject {A : Type} (e : error) : promise A :=
  fun tr => (Rejected e, tr).

(** [await p] followed by [k]: a rejection of [p] skips [k]. *)
Definition bind {A B : Type} (p : promise A) (k : A -> promise B)
  : promise B :=
  fun tr =>
    match p tr with
    | (Resolved a, tr') => k a tr'
    | (Rejected e, tr') => (Rejected e, tr')
    end.

(** [new Promise((resolve, reject) => call(..., (err, result) => k))]: the
    call is recorded with whether it succeeded, then the callback [k] runs
    on what the outside world answered, an error or a result. *)
Definition callback {A B : Type} (mk : bool -> effect) (answer : outcome A)
  (k : outcome A -> promise B) : promise B :=
  fun tr => k answer (tr ++ [mk (isResolved answer)])%list.

(** A call of a promise-returning function of the host: it settles as the
    outside world answers. *)
Definition perform {A : Type} (mk : bool -> effect) (answer : outcome A)
  : promise A :=
  callback mk answer
    (fun r => match r with Resolved a => resolve a | Rejected e => reject e end).

(** [for (const x of xs) body], the loop state passed along. *)
Fixpoint forOf {A S : Type} (xs : list A) (body : A -> S -> promise S)
  (s : S) : promise S :=
  match xs with
  | [] => resolve s
  | x :: xs' => bind (body x s) (forOf xs' body)
  end.

Definition isWrite (e : effect) : bool :=
  match e with FsWriteFile _ _ _ => true | DbAll _ _ => false end.

Definition failedRead (e : effect) : bool :=
  match e with DbAll _ ok => negb ok | FsWriteFile _ _ _ => false end.

Definition writes (tr : trace) : list effect := filter isWrite tr.

End Async.

Import Async.

Notation "x <- p ;; k" := (bind p (fun x => k))
  (at level 61, p at next level, right associativity).

(** ** The exporter *)

(** [interface ColumnInfo]: a row of [PRAGMA table_info]. *)
Record ColumnInfo : Type := mkColumnInfo {
  cid : Z;
  name : string;
  type : string;
  notnull : Z;
  dflt_value : option string;
  pk : Z
}.

(** What the open database and the file system answer.  The answers to the
    two per-table queries are indexed by the text of the query, which is
    all the engine sees of the table name. *)
Record World : Type := mkWorld {
  sqlite_master : outcome (list Sqlite.masterRow);
  pragmaAnswer : string -> outcome (list ColumnInfo);
  selectAnswer : string -> outcome (list JS.object);
  writeAnswer : string -> string -> outcome unit
}.

Definition push {A : Type} (xs : list A) (x : A) : list A :=
  (xs ++ [x])%list.

Definition tablesQuery : string :=
  JS.LF ++ "        SELECT name FROM sqlite_master " ++
  JS.LF ++ "        WHERE type='table' AND name NOT LIKE 'sqlite_%'" ++
  JS.LF ++ "        ORDER BY name" ++
  JS.LF ++ "      ".

Definition pragmaQuery (tableName : string) : string :=
  "PRAGMA table_info(" ++ tableName ++ ")".

Definition selectQuery (tableName : string) : string :=
  "SELECT * FROM " ++ tableName.

Section Exporter.

Variable w : World.

(** [getTables]: the engine evaluates the query on its catalog, unless it
    fails; each row of the result is mapped to its [name]. *)
Definition getTables : promise (list string) :=
  let query := tablesQuery in
  callback (DbAll query)
    (match sqlite_master w with
     | Resolved master => Resolved (Sqlite.selectNames master)
     | Rejected e => Rejected e
     end)
    (fun answer =>
       match answer with
       | Rejected err => reject err
       | Resolved rows => resolve (map (fun row => Sqlite.name row) rows)
       end).

Definition getColumnInfo (tableName : string) : promise (list ColumnInfo) :=
  let sql := pragmaQuery tableName in
  callback (DbAll sql) (pragmaAnswer w sql)
    (fun answer =>
       match answer with
       | Rejected err => reject err
       | Resolved rows => resolve rows
       end).

Definition convertSQLiteType (sqliteType : string) : string :=
  let type := JS.toLowerCase sqliteType in
  if JS.includes type "int" then "INT"
  else if JS.includes type "text" then "TEXT"
  else if JS.includes type "real"
          || JS.includes type "float"
          || JS.includes type "double" then "DECIMAL(10,2)"
  else if JS.includes type "blob" then "BLOB"
  else if JS.includes type "char" then JS.toUpperCase sqliteType
  else if JS.includes type "varchar" then JS.toUpperCase sqliteType
  else "TEXT".

(** The callback of [columns.map] in [getCreateTableSQL]. *)
Definition columnDef (col : ColumnInfo) : string :=
  let def := "  `" ++ name col ++ "`" in
  let sqlType := convertSQLiteType (type col) in
  let def := def ++ " " ++ sqlType in
  let def :=
    if JS.truthy (notnull col) && negb (JS.truthy (pk col))
    then def ++ " NOT NULL" else def in
  let def :=
    if JS.truthy (pk col) then
      let def := def ++ " PRIMARY KEY" in
      if JS.includes (JS.toLowerCase (type col)) "integer"
      then def ++ " AUTO_INCREMENT" else def
    else def in
  let def :=
    match dflt_value col with
    | Some d => def ++ " DEFAULT " ++ d
    | None => def
    end in
  def.

Definition createTableText (tableName : string) (columns : list ColumnInfo)
  : string :=
  let columnDefs := map columnDef columns in
  "CREATE TABLE `" ++ tableName ++ "` (" ++ JS.LF
    ++ JS.join ("," ++ JS.LF) columnDefs ++ JS.LF ++ ");".

Definition getCreateTableSQL (tableName : string) : promise string :=
  columns <- getColumnInfo tableName ;;
  resolve (createTableText tableName columns).

(** The literal of a string cell: the template
    ['${value.replace(/'/g, "''")}']. *)
Definition quoteString (value : string) : string :=
  "'" ++ JS.replaceAll "'"%char "''" value ++ "'".

(** The callback of [columns.map] in [getInsertStatements]: what one cell
    becomes before the join. *)
Definition cellValue (row : JS.object) (col : string) : JS.value :=
  let value := JS.get row col in
  match value with
  | JS.Null => JS.Str "NULL"
  | JS.Str s => JS.Str (quoteString s)
  | _ => value
  end.

Definition insertStatement (tableName columnList : string)
  (columns : list string) (row : JS.object) : string :=
  let values := JS.joinValues ", " (map (cellValue row) columns) in
  "INSERT INTO `" ++ tableName ++ "` (" ++ columnList ++ ") VALUES ("
    ++ values ++ ");".

(** What the callback of [db.all] in [getInsertStatements] resolves with,
    once the rows are there. *)
Definition insertStatementsOf (tableName : string) (rows : list JS.object)
  : list string :=
  match rows with
  | [] => []
  | row0 :: _ =>
      let columns := JS.keys row0 in
      let columnList :=
        JS.join ", " (map (fun col => "`" ++ col ++ "`") columns) in
      fold_left
        (fun statements row =>
           push statements (insertStatement tableName columnList columns row))
        rows []
  end.

Definition getInsertStatements (tableName : string) : promise (list string) :=
  let sql := selectQuery tableName in
  callback (DbAll sql) (selectAnswer w sql)
    (fun answer =>
       match answer with
       | Rejected err => reject err
       | Resolved rows => resolve (insertStatementsOf tableName rows)
       end).

(** The body of the loop over the tables in [export]. *)
Definition exportTable (tableName : string) (sqlStatements : list string)
  : promise (list string) :=
  let sqlStatements := push sqlStatements ("-- Table: " ++ tableName) in
  createTableSQL <- getCreateTableSQL tableName ;;
  let sqlStatements := push sqlStatements createTableSQL in
  let sqlStatements := push sqlStatements EmptyString in
  insertStatements <- getInsertStatements tableName ;;
  if (0 <? List.length insertStatements)%nat then
    let sqlStatements :=
      push sqlStatements ("-- Data for table: " ++ tableName) in
    let sqlStatements := (sqlStatements ++ insertStatements)%list in
    let sqlStatements := push sqlStatements EmptyString in
    resolve sqlStatements
  else resolve sqlStatements.

Definition header (now : string) : list string :=
  let sqlStatements := [] in
  let sqlStatements := push sqlStatements "-- Exported from SQLite database" in
  let sqlStatements := push sqlStatements ("-- Generated on " ++ now) in
  push sqlStatements EmptyString.

(** The lines of the document: [sqlStatements] at the end of the loop. *)
Definition buildStatements (now : string) : promise (list string) :=
  let sqlStatements := header now in
  tables <- getTables ;;
  forOf tables exportTable sqlStatements.

Definition writeFile (path content : string) : promise unit :=
  perform (FsWriteFile path content) (writeAnswer w path content).

(** [export()], with the instant of the run ([new Date().toISOString()])
    and the exporter's [outputFile] as arguments. *)
Definition export (now outputFile : string) : promise unit :=
  sqlStatements <- buildStatements now ;;
  let sqlContent := JS.join JS.LF sqlStatements in
  writeFile outputFile sqlContent.

End Exporter.

(** ** The run of the exporter, read off its code

    What [exportTable] appends to the document and which queries it sends,
    as functions of the world; the properties below first show that the
    promises above compute exactly these. *)

Definition mapOutcome {A B : Type} (f : A -> B) (o : outcome A) : outcome B :=
  match o with
  | Resolved a => Resolved (f a)
  | Rejected e => Rejected e
  end.

(** The lines of one table: comment, definition, blank line and, when there
    are rows, data comment, insertions and blank line. *)
Definition blockOf (w : World) (tableName : string) : outcome (list string) :=
  match pragmaAnswer w (pragmaQuery tableName) with
  | Rejected e => Rejected e
  | Resolved columns =>
      match selectAnswer w (selectQuery tableName) with
      | Rejected e => Rejected e
      | Resolved rows =>
          let insertStatements := insertStatementsOf tableName rows in
          Resolved
            (List.app
               ["-- Table: " ++ tableName;
                createTableText tableName columns;
                EmptyString]
               match insertStatements with
               | [] => []
               | _ :: _ =>
                   ("-- Data for table: " ++ tableName)
                   :: List.app insertStatements [EmptyString]
               end)
      end
  end.

(** The queries of one table: the second is sent when the first succeeds. *)
Definition readsOf (w : World) (tableName : string) : trace :=
  let p := pragmaAnswer w (pragmaQuery tableName) in
  DbAll (pragmaQuery tableName) (isResolved p)
  :: (if isResolved p
      then [DbAll (selectQuery tableName)
              (isResolved (selectAnswer w (selectQuery tableName)))]
      else []).

(** The tables of a list in turn, up to the first that fails. *)
Fixpoint blocksOf (w : World) (tables : list string) : outcome (list string) :=
  match tables with
  | [] => Resolved []
  | t :: tables' =>
      match blockOf w t with
      | Rejected e => Rejected e
      | Resolved b => mapOutcome (fun bs => (b ++ bs)%list) (blocksOf w tables')
      end
  end.

Fixpoint readsOfAll (w : World) (tables : list string) : trace :=
  match tables with
  | [] => []
  | t :: tables' =>
      (readsOf w t
       ++ (if isResolved (blockOf w t) then readsOfAll w tables' else []))%list
  end.

(** The lines after the header, and the queries of a whole run. *)
Definition documentBody (w : World) : outcome (list string) :=
  match sqlite_master w with
  | Rejected e => Rejected e
  | Resolved master => blocksOf w (Sqlite.selectTableNames master)
  end.

Definition readsOfRun (w : World) : trace :=
  match sqlite_master w with
  | Rejected _ => [DbAll tablesQuery false]
  | Resolved master =>
      DbAll tablesQuery true :: readsOfAll w (Sqlite.selectTableNames master)
  end.

(** The column line as the clauses appended to it, in order. *)
Inductive clause : Type :=
| QuotedName (n : string)
| MappedType (t : string)
| NotNull
| PrimaryKey
| AutoIncrement
| Default (d : string).

Definition clauseText (c : clause) : string :=
  match c with
  | QuotedName n => "  `" ++ n ++ "`"
  | MappedType t => " " ++ t
  | NotNull => " NOT NULL"
  | PrimaryKey => " PRIMARY KEY"
  | AutoIncrement => " AUTO_INCREMENT"
  | Default d => " DEFAULT " ++ d
  end.

Definition constraintClauses (col : ColumnInfo) : list clause :=
  ((if JS.truthy (notnull col) && negb (JS.truthy (pk col))
    then [NotNull] else [])
   ++ (if JS.truthy (pk col)
       then PrimaryKey
            :: (if JS.includes (JS.toLowerCase (type col)) "integer"
                then [AutoIncrement] else [])
       else [])
   ++ (match dflt_value col with Some d => [Default d] | None => [] end))%list.

Definition columnClauses (col : ColumnInfo) : list clause :=
  QuotedName (name col)
  :: MappedType (convertSQLiteType (type col))
  :: constraintClauses col.

(** Whether a character occurs in a string, and whether some proper,
    non-empty end of [n] starts the way a string starting with [c1 c2]
    does: the two tests that rule out an occurrence of [n] lying across the
    border of two clauses. *)
Fixpoint charIn (c : ascii) (s : string) : bool :=
  match s with
  | EmptyString => false
  | String d s' => Ascii.eqb d c || charIn c s'
  end.

Definition startsLike (c1 c2 : ascii) (s : string) : bool :=
  match s with
  | EmptyString => false
  | String x EmptyString => Ascii.eqb x c1
  | String x (String y _) => Ascii.eqb x c1 && Ascii.eqb y c2
  end.

Fixpoint endStartsLike (c1 c2 : ascii) (n : string) : bool :=
  match n with
  | EmptyString => false
  | String _ n' => startsLike c1 c2 n' || endStartsLike c1 c2 n'
  end.

(** The letter after the leading blank of a constraint clause. *)
Definition clauseHead (c : clause) : option ascii :=
  match c with
  | QuotedName _ | MappedType _ => None
  | NotNull => Some "N"%char
  | PrimaryKey => Some "P"%char
  | AutoIncrement => Some "A"%char
  | Default _ => Some "D"%char
  end.

(** A needle that cannot lie across the border before clause [c]. *)
Definition borderSafe (n : string) (c : clause) : bool :=
  match clauseHead c with
  | Some h => negb (endStartsLike " "%char h n)
  | None => true
  end.

Definition isCreateTable (line : string) : bool :=
  JS.startsWith line "CREATE TABLE `".

(** ** Definitions that follow the words of the specification *)

Module Spec.

(** The priority list of the type mapper: the keywords of each rule and
    what the rule yields for the declared type. *)
Definition mapperRules : list (list string * (string -> string)) :=
  [ (["int"], fun _ => "INT");
    (["text"], fun _ => "TEXT");
    (["real"; "float"; "double"], fun _ => "DECIMAL(10,2)");
    (["blob"], fun _ => "BLOB");
    (["char"], JS.toUpperCase) ].

(** First match wins; no match gives [TEXT]. *)
Fixpoint firstMatch (rules : list (list string * (string -> string)))
  (lowered declared : string) : string :=
  match rules with
  | [] => "TEXT"
  | (keywords, yield) :: rules' =>
      if existsb (JS.includes lowered) keywords then yield declared
      else firstMatch rules' lowered declared
  end.

Definition typeMapper (declared : string) : string :=
  firstMatch mapperRules (JS.toLowerCase declared) declared.

(** The type mapper of the source with its [varchar] test taken out. *)
Definition convertSQLiteType_noVarchar (sqliteType : string) : string :=
  let type := JS.toLowerCase sqliteType in
  if JS.includes type "int" then "INT"
  else if JS.includes type "text" then "TEXT"
  else if JS.includes type "real"
          || JS.includes type "float"
          || JS.includes type "double" then "DECIMAL(10,2)"
  else if JS.includes type "blob" then "BLOB"
  else if JS.includes type "char" then JS.toUpperCase sqliteType
  else "TEXT".

(** Every single quote of the content written twice. *)
Fixpoint doubled (content : string) : string :=
  match content with
  | EmptyString => EmptyString
  | String c content' =>
      if Ascii.eqb c "'"%char then String c (String c (doubled content'))
      else String c (doubled content')
  end.

(** Reading a quoted literal back.  [unescape] reads what follows the
    opening quote: a pair of quotes stands for one quote, a lone quote
    closes the literal and must be its last character. *)
Fixpoint unescape (body : string) : option string :=
  match body with
  | EmptyString => None
  | String c rest =>
      if Ascii.eqb c "'"%char then
        match rest with
        | EmptyString => Some EmptyString
        | String d rest' =>
            if Ascii.eqb d "'"%char
            then option_map (String "'"%char) (unescape rest')
            else None
        end
      else option_map (String c) (unescape rest)
  end.

Definition parseLiteral (literal : string) : option string :=
  match literal with
  | EmptyString => None
  | String q body => if Ascii.eqb q "'"%char then unescape body else None
  end.

(** A declared type denotes an integer: it has the integer affinity of the
    source engine, which is also when the type mapper yields [INT]. *)
Definition integerAffinity (declared : string) : bool :=
  JS.includes (JS.toLowerCase declared) "int".

(** A table of the user: an entry of the catalog of type table whose name
    does not start with the prefix the engine reserves. *)
Definition userTable (r : Sqlite.masterRow) : bool :=
  String.eqb (Sqlite.mtype r) "table" && negb (Sqlite.reservedName (Sqlite.mname r)).

End Spec.

(** ** Sample inputs *)

Module Sample.

(** A primary key declared [INT]. *)
Definition intKey : ColumnInfo :=
  mkColumnInfo 0 "id" "INT" 0 None 1.

(** A primary key declared [INTEGER], with its not-null flag set. *)
Definition integerKey : ColumnInfo :=
  mkColumnInfo 0 "id" "INTEGER" 1 None 1.

(** A primary key declared [VARCHAR(36)]. *)
Definition uuidKey : ColumnInfo :=
  mkColumnInfo 0 "uuid" "VARCHAR(36)" 1 None 1.

Definition nameColumn : ColumnInfo :=
  mkColumnInfo 1 "name" "TEXT" 1 None 0.

Definition itemsColumns : list ColumnInfo :=
  [ mkColumnInfo 0 "id" "INTEGER" 0 None 1;
    mkColumnInfo 1 "name" "TEXT" 1 None 0;
    mkColumnInfo 2 "price" "REAL" 0 None 0 ].

Definition itemsRows : list JS.object :=
  [ [("id", JS.Num "1"); ("name", JS.Str "Tea"); ("price", JS.Num "3.5")];
    [("id", JS.Num "2"); ("name", JS.Str "O'Brien's Mug");
     ("price", JS.Null)] ].

Definition logColumns : list ColumnInfo :=
  [ mkColumnInfo 0 "line" "TEXT" 0 None 0 ].

(** A database with the tables [items] (two rows) and [audit] (no row),
    the engine's [sqlite_sequence] and an index.  [broken] says which
    query text the engine fails on. *)
Definition catalog : list Sqlite.masterRow :=
  [ Sqlite.mkMasterRow "table" "items";
    Sqlite.mkMasterRow "table" "sqlite_sequence";
    Sqlite.mkMasterRow "index" "items_name";
    Sqlite.mkMasterRow "table" "audit" ].

Definition world (broken : string) : World :=
  mkWorld
    (Resolved catalog)
    (fun sql =>
       if String.eqb sql broken then Rejected "SQLITE_ERROR"
       else if String.eqb sql "PRAGMA table_info(items)"
            then Resolved itemsColumns
            else Resolved logColumns)
    (fun sql =>
       if String.eqb sql broken then Rejected "SQLITE_CORRUPT"
       else if String.eqb sql "SELECT * FROM items"
            then Resolved itemsRows
            else Resolved [])
    (fun _ _ => Resolved tt).

(** A database whose only table is the user's [sqlite3_data]. *)
Definition cacheCatalog : list Sqlite.masterRow :=
  [ Sqlite.mkMasterRow "table" "sqlite3_data" ].

Definition cacheWorld : World :=
  mkWorld
    (Resolved cacheCatalog)
    (fun _ => Resolved logColumns)
    (fun _ => Resolved [])
    (fun _ _ => Resolved tt).

End Sample.

(** ** The command line: [parseArgs], [checkFileExists] and [main] *)

Module Cli.

(** The functions of the host's [path] module that the code calls, taken as
    given: [path.parse(p).dir], [path.parse(p).name], [path.join(a, b)] and
    [path.dirname(p)]. *)
Record PathLib : Type := mkPathLib {
  parseDir : string -> string;
  parseName : string -> string;
  pathJoin : string -> string -> string;
  pathDirname : string -> string
}.

(** Where [parseArgs] returns: the two places that return [null], told
    apart, and the place that returns the pair of files. *)
Inductive parsed : Type :=
| HelpShown
| MissingInput
| Parsed (inputFile outputFile : string).

(** [args.includes(a)]. *)
Definition includesArg (args : list string) (a : string) : bool :=
  existsb (String.eqb a) args.

(** The default output file: [path.join(parsedPath.dir,
    `${parsedPath.name}_export.sql`)]. *)
Definition defaultOutput (P : PathLib) (inputFile : string) : string :=
  pathJoin P (parseDir P inputFile) (parseName P inputFile ++ "_export.sql").

(** [parseArgs()], with [process.argv] as argument.  [args[0]] is read
    where [args] is not empty; [args[1]] may be [undefined], and an empty
    string is as falsy as [undefined]. *)
Definition parseArgs (P : PathLib) (argv : list string) : parsed :=
  let args := skipn 2 argv in
  if (List.length args =? 0)%nat
     || includesArg args "--help" || includesArg args "-h"
  then HelpShown
  else if (List.length args <? 1)%nat then MissingInput
  else
    let inputFile := hd EmptyString args in
    let outputFile :=
      match nth_error args 1 with
      | Some o => if String.eqb o EmptyString then defaultOutput P inputFile else o
      | None => defaultOutput P inputFile
      end in
    Parsed inputFile outputFile.

(** [!args] in [main]. *)
Definition isNull (r : parsed) : bool :=
  match r with Parsed _ _ => false | _ => true end.

(** What the machine answers to [main]: the file system before and after
    the export, and the world of the exporter once it has opened the
    database at a path.  Opening has no answer of its own: a file that is
    no database fails at the first query. *)
Record Host : Type := mkHost {
  paths : PathLib;
  accessAnswer : string -> outcome unit;
  statInput : string -> outcome bool;
  mkdirAnswer : string -> outcome unit;
  database : string -> World;
  statOutput : string -> outcome unit
}.

Inductive hostEffect : Type :=
| FsAccess (path : string) (ok : bool)
| FsStat (path : string) (ok : bool)
| FsMkdir (path : string) (ok : bool)
| NewDatabase (dbPath : string)
| Exporter (e : effect)
| DbClose.

(** How [main] ends: by [process.exit(code)], or by returning. *)
Inductive ending : Type :=
| Exit (code : Z)
| Returned.

(** [checkFileExists]: [fs.access] settles, and a failure is answered with
    [false]. *)
Definition checkFileExists (h : Host) (filePath : string)
  : bool * list hostEffect :=
  match accessAnswer h filePath with
  | Resolved _ => (true, [FsAccess filePath true])
  | Rejected _ => (false, [FsAccess filePath false])
  end.

(** [outputDir && outputDir !== "."]. *)
Definition needsMkdir (outputDir : string) : bool :=
  negb (String.eqb outputDir EmptyString) && negb (String.eqb outputDir ".").

(** [main()], with [process.argv] and the instant of the export as
    arguments. *)
Definition main (h : Host) (argv : list string) (now : string)
  : ending * list hostEffect :=
  match parseArgs (paths h) argv with
  | HelpShown | MissingInput => (Exit 0, [])
  | Parsed inputFile outputFile =>
      let (found, tr) := checkFileExists h inputFile in
      if negb found then (Exit 1, tr)
      else
        match statInput h inputFile with
        | Rejected _ => (Exit 1, (tr ++ [FsStat inputFile false])%list)
        | Resolved isFile =>
            let tr := (tr ++ [FsStat inputFile true])%list in
            if negb isFile then (Exit 1, tr)
            else
              let outputDir := pathDirname (paths h) outputFile in
              let made :=
                if needsMkdir outputDir then mkdirAnswer h outputDir
                else Resolved tt in
              let tr :=
                (tr ++ (if needsMkdir outputDir
                        then [FsMkdir outputDir (isResolved made)]
                        else []))%list in
              match made with
              | Rejected _ => (Exit 1, tr)
              | Resolved _ =>
                  let tr := (tr ++ [NewDatabase inputFile])%list in
                  let (result, run) :=
                    export (database h inputFile) now outputFile [] in
                  let tr := (tr ++ map Exporter run)%list in
                  match result with
                  | Rejected _ => (Exit 1, tr)
                  | Resolved _ =>
                      let tr := (tr ++ [DbClose])%list in
                      match statOutput h outputFile with
                      | Rejected _ =>
                          (Exit 1, (tr ++ [FsStat outputFile false])%list)
                      | Resolved _ =>
                          (Returned, (tr ++ [FsStat outputFile true])%list)
                      end
                  end
              end
        end
  end.

Definition isExporter (e : hostEffect) : bool :=
  match e with Exporter _ => true | _ => false end.

Definition isNewDatabase (e : hostEffect) : bool :=
  match e with NewDatabase _ => true | _ => false end.

Definition isMkdir (e : hostEffect) : bool :=
  match e with FsMkdir _ _ => true | _ => false end.

Definition isClose (e : hostEffect) : bool :=
  match e with DbClose => true | _ => false end.

End Cli.

(** ** More notions for the properties *)

(** A string of ASCII characters only. *)
Fixpoint isAscii (s : string) : bool :=
  match s with
  | EmptyString => true
  | String c s' => (N_of_ascii c <? 128)%N && isAscii s'
  end.

Definition isInsert (line : string) : bool :=
  JS.startsWith line "INSERT INTO `".

(** The rows the engine returns for a table, none when the query fails. *)
Definition rowsOf (w : World) (tableName : string) : list JS.object :=
  match selectAnswer w (selectQuery tableName) with
  | Resolved rows => rows
  | Rejected _ => []
  end.


(** The error of an outcome. *)
Definition errorOf {A : Type} (o : outcome A) : option error :=
  match o with Resolved _ => None | Rejected e => Some e end.



(** Reading a quoted literal off the front of a text: the content and what
    follows the closing quote.  A pair of quotes stands for one quote; a
    quote followed by anything else, or by nothing, closes the literal. *)
Fixpoint readBody (body : string) : option (string * string) :=
  match body with
  | EmptyString => None
  | String c rest =>
      if Ascii.eqb c "'"%char then
        match rest with
        | EmptyString => Some (EmptyString, EmptyString)
        | String d rest' =>
            if Ascii.eqb d "'"%char
            then option_map (fun r => (String "'"%char (fst r), snd r))
                   (readBody rest')
            else Some (EmptyString, rest)
        end
      else option_map (fun r => (String c (fst r), snd r)) (readBody rest)
  end.

Definition readLiteral (text : string) : option (string * string) :=
  match text with
  | EmptyString => None
  | String q body => if Ascii.eqb q "'"%char then readBody body else None
  end.

Definition startsWithQuote (s : string) : bool :=
  match s with
  | EmptyString => false
  | String c _ => Ascii.eqb c "'"%char
  end.

(** A column with its default taken away. *)
Definition withoutDefault (col : ColumnInfo) : ColumnInfo :=
  mkColumnInfo (cid col) (name col) (type col) (notnull col) None (pk col).

(** The text of the default clause of a column, empty when there is none. *)
Definition defaultText (col : ColumnInfo) : string :=
  match dflt_value col with
  | Some d => " DEFAULT " ++ d
  | None => EmptyString
  end.

(** Sample command lines and hosts. *)
Module SampleCli.

Definition paths : Cli.PathLib :=
  Cli.mkPathLib
    (fun _ => "data")
    (fun _ => "shop")
    (fun a b => a ++ "/" ++ b)
    (fun p => if String.eqb p "out.sql" then "." else "exports").

(** A host on which every check passes and the database is the sample
    one; [missing] is the path [fs.access] fails on. *)
Definition host (missing : string) : Cli.Host :=
  Cli.mkHost paths
    (fun p => if String.eqb p missing then Rejected "ENOENT" else Resolved tt)
    (fun _ => Resolved true)
    (fun _ => Resolved tt)
    (fun _ => Sample.world EmptyString)
    (fun _ => Resolved tt).

Definition argv : list string :=
  ["bun"; "index.ts"; "data/shop.db"; "out.sql"].

End SampleCli.

(** * Properties *)

(** ** Strings *)

Lemma prefix_app (p r : string) : String.prefix p (p ++ r) = true.
Proof.
  induction p as [|c p IH]; simpl.
  - destruct r; reflexivity.
  - destruct (ascii_dec c c) as [_|n]; [exact IH | now elim n].
Qed.

Lemma prefix_inv (p s : string) :
  String.prefix p s = true -> exists r, s = p ++ r.
Proof.
  revert s; induction p as [|c p IH]; intros s H.
  - now exists s.
  - destruct s as [|d s]; simpl in H; [discriminate|].
    destruct (ascii_dec c d) as [->|_]; [|discriminate].
    destruct (IH _ H) as [r ->]. now exists r.
Qed.

Lemma app_assoc_s (a b c : string) : (a ++ b) ++ c = a ++ b ++ c.
Proof. induction a as [|x a IH]; simpl; [reflexivity | now rewrite IH]. Qed.

Lemma app_nil_r_s (a : string) : a ++ EmptyString = a.
Proof. induction a as [|x a IH]; simpl; [reflexivity | now rewrite IH]. Qed.

(** [includes] says that the needle occurs: the string splits around it. *)
Lemma includes_iff (s needle : string) :
  JS.includes s needle = true <-> exists a b, s = a ++ needle ++ b.
Proof.
  split.
  - induction s as [|c s IH]; cbn [JS.includes]; intros H.
    + apply prefix_inv in H. destruct H as [r H].
      exists EmptyString, r. exact H.
    + apply orb_true_iff in H. destruct H as [H|H].
      * apply prefix_inv in H. destruct H as [r H].
        exists EmptyString, r. exact H.
      * destruct (IH H) as (a & b & ->). now exists (String c a), b.
  - intros (a & b & ->). induction a as [|c a IH].
    + cbn [append]. destruct (needle ++ b) as [|d t] eqn:E.
      * destruct needle; [reflexivity | discriminate].
      * cbn [JS.includes]. rewrite <- E, prefix_app. reflexivity.
    + cbn [append JS.includes]. rewrite IH. apply orb_true_r.
Qed.

Lemma includes_app_l (a b needle : string) :
  JS.includes a needle = true -> JS.includes (a ++ b) needle = true.
Proof.
  rewrite !includes_iff. intros (x & y & ->).
  exists x, (y ++ b). now rewrite !app_assoc_s.
Qed.

Lemma includes_app_r (a b needle : string) :
  JS.includes b needle = true -> JS.includes (a ++ b) needle = true.
Proof.
  rewrite !includes_iff. intros (x & y & ->).
  exists (a ++ x), y. now rewrite !app_assoc_s.
Qed.

Lemma includes_needle_tail (s n1 n2 : string) :
  JS.includes s (n1 ++ n2) = true -> JS.includes s n2 = true.
Proof.
  rewrite !includes_iff. intros (a & b & ->).
  exists (a ++ n1), b. now rewrite !app_assoc_s.
Qed.

Lemma varchar_includes_char (s : string) :
  JS.includes s "varchar" = true -> JS.includes s "char" = true.
Proof. exact (includes_needle_tail s "var" "char"). Qed.

(** ** The type mapper *)

(** C1: for every declared type the mapper returns what the first matching
    rule of the priority list yields on the lowered string: [INT] for
    int, else [TEXT] for text, else [DECIMAL(10,2)] for real, float
    or double, else [BLOB] for blob, else the declared type in upper case
    for char, and [TEXT] when no rule matches. *)
Theorem convertSQLiteType_first_match (sqliteType : string) :
  convertSQLiteType sqliteType = Spec.typeMapper sqliteType.
Proof.
  unfold convertSQLiteType, Spec.typeMapper, Spec.mapperRules; cbn [Spec.firstMatch existsb].
  rewrite !orb_false_r.
  destruct (JS.includes _ "int"); [reflexivity|].
  destruct (JS.includes _ "text"); [reflexivity|].
  rewrite <- orb_assoc.
  destruct (_ || _); [reflexivity|].
  destruct (JS.includes _ "blob"); [reflexivity|].
  destruct (JS.includes _ "char") eqn:Hc; [reflexivity|].
  destruct (JS.includes _ "varchar") eqn:Hv; [|reflexivity].
  apply varchar_includes_char in Hv. congruence.
Qed.

(** C10: the [varchar] test of the mapper is dead code.  A string that
    contains varchar contains char, so the earlier test has already
    answered, and the mapper agrees on every input with the variant that has
    no [varchar] test. *)
Theorem convertSQLiteType_varchar_dead :
  (forall lowered : string,
      JS.includes lowered "varchar" = true ->
      JS.includes lowered "char" = true)
  /\ (forall sqliteType : string,
         convertSQLiteType sqliteType
         = Spec.convertSQLiteType_noVarchar sqliteType).
Proof.
  split; [exact varchar_includes_char|].
  intros s. unfold convertSQLiteType, Spec.convertSQLiteType_noVarchar.
  destruct (JS.includes _ "int"); [reflexivity|].
  destruct (JS.includes _ "text"); [reflexivity|].
  destruct (_ || _); [reflexivity|].
  destruct (JS.includes _ "blob"); [reflexivity|].
  destruct (JS.includes _ "char") eqn:Hc; [reflexivity|].
  destruct (JS.includes _ "varchar") eqn:Hv; [|reflexivity].
  apply varchar_includes_char in Hv. congruence.
Qed.

(** ** String literals *)

Lemma replaceAll_quote_doubled (s : string) :
  JS.replaceAll "'"%char "''" s = Spec.doubled s.
Proof.
  induction s as [|c s IH]; cbn [JS.replaceAll Spec.doubled]; [reflexivity|].
  rewrite IH. destruct (Ascii.eqb_spec c "'"%char) as [->|_]; reflexivity.
Qed.

Lemma unescape_doubled (s : string) :
  Spec.unescape (Spec.doubled s ++ "'") = Some s.
Proof.
  induction s as [|c s IH]; [reflexivity|].
  cbn [Spec.doubled].
  destruct (Ascii.eqb_spec c "'"%char) as [->|Hc].
  - cbn [append Spec.unescape]. rewrite Ascii.eqb_refl, IH. reflexivity.
  - cbn [append Spec.unescape].
    destruct (Ascii.eqb_spec c "'"%char) as [E|_]; [contradiction|].
    rewrite IH. reflexivity.
Qed.

(** C3: a text value is rendered between single quotes with every single
    quote of its content doubled, and reading the literal back (dropping the
    outer quotes, undoing the doubling) gives the value again, whatever
    quotes it contains. *)
Theorem quoteString_roundtrip (value : string) :
  quoteString value = "'" ++ Spec.doubled value ++ "'"
  /\ Spec.parseLiteral (quoteString value) = Some value
  /\ (forall (row : JS.object) (col : string),
         JS.get row col = JS.Str value ->
         cellValue row col = JS.Str (quoteString value)).
Proof.
  unfold quoteString. rewrite replaceAll_quote_doubled.
  split; [reflexivity|]. split.
  - cbn [append Spec.parseLiteral]. rewrite Ascii.eqb_refl.
    apply unescape_doubled.
  - intros row col H. unfold cellValue. rewrite H.
    unfold quoteString. now rewrite replaceAll_quote_doubled.
Qed.

Lemma quoteString_roundtrip_witness :
  quoteString "O'Brien's Mug" = "'O''Brien''s Mug'"
  /\ Spec.parseLiteral "'O''Brien''s Mug'" = Some "O'Brien's Mug"
  /\ cellValue [("id", JS.Num "2"); ("name", JS.Str "O'Brien's Mug")] "name"
     = JS.Str "'O''Brien''s Mug'".
Proof.
  destruct (quoteString_roundtrip "O'Brien's Mug") as (H1 & H2 & H3).
  split; [exact H1|]. split; [exact H2|].
  apply (H3 [("id", JS.Num "2"); ("name", JS.Str "O'Brien's Mug")] "name").
  reflexivity.
Defined.

(** ** Column lines *)

Lemma columnDef_clauses (col : ColumnInfo) :
  columnDef col = String.concat EmptyString (map clauseText (columnClauses col)).
Proof.
  unfold columnDef, columnClauses, constraintClauses.
  destruct (JS.truthy (notnull col) && negb (JS.truthy (pk col)));
    destruct (JS.truthy (pk col));
    destruct (JS.includes (JS.toLowerCase (type col)) "integer");
    destruct (dflt_value col);
    cbn [List.app map String.concat clauseText];
    rewrite ?app_assoc_s; cbn [append]; rewrite ?app_assoc_s; reflexivity.
Qed.

(** *** Where a needle can occur in a concatenation *)

Lemma append_eq_append (a b c d : string) :
  a ++ b = c ++ d ->
  (exists m, c = a ++ m /\ b = m ++ d) \/ (exists m, a = c ++ m /\ d = m ++ b).
Proof.
  revert c; induction a as [|x a IH]; intros c H.
  - left. exists c. split; [reflexivity | exact H].
  - destruct c as [|y c].
    + right. exists (String x a). split; [reflexivity | symmetry; exact H].
    + cbn [append] in H. injection H as -> H.
      destruct (IH _ H) as [(m & -> & ->)|(m & -> & ->)].
      * left. now exists m.
      * right. now exists m.
Qed.

(** An occurrence in [a ++ b] lies in [a], or in [b], or across the border:
    a non-empty start of the needle ends [a] and the rest starts [b]. *)
Lemma includes_app_split (a b n : string) :
  JS.includes (a ++ b) n = true ->
  JS.includes a n = true \/ JS.includes b n = true
  \/ exists n1 n2 a' b',
       n = n1 ++ n2 /\ n1 <> EmptyString /\ n2 <> EmptyString
       /\ a = a' ++ n1 /\ b = n2 ++ b'.
Proof.
  intros H. apply includes_iff in H. destruct H as (x & y & H).
  apply append_eq_append in H. destruct H as [(m & -> & ->)|(m & -> & H)].
  - right; left. apply includes_iff. now exists m, y.
  - apply append_eq_append in H. destruct H as [(k & -> & ->)|(k & -> & ->)].
    + left. apply includes_iff. exists x, k. reflexivity.
    + destruct m as [|c m].
      * right; left. apply includes_iff. exists EmptyString, y. reflexivity.
      * destruct k as [|d k].
        -- left. apply includes_iff. exists x, EmptyString.
           now rewrite !app_nil_r_s.
        -- right; right. exists (String c m), (String d k), x, y.
           repeat split; congruence.
Qed.

Lemma includes_app_bool (a b n : string) :
  (JS.includes (a ++ b) n = true ->
   JS.includes a n = true \/ JS.includes b n = true) ->
  JS.includes (a ++ b) n = JS.includes a n || JS.includes b n.
Proof.
  intros H.
  destruct (JS.includes a n) eqn:Ea.
  - now apply includes_app_l.
  - destruct (JS.includes b n) eqn:Eb.
    + now apply includes_app_r.
    + destruct (JS.includes (a ++ b) n); [|reflexivity].
      destruct (H eq_refl); discriminate.
Qed.

Lemma charIn_app (c : ascii) (a b : string) :
  charIn c (a ++ b) = charIn c a || charIn c b.
Proof.
  induction a as [|x a IH]; cbn [append charIn]; [reflexivity|].
  now rewrite IH, orb_assoc.
Qed.

Lemma ends_with_char (a0 a' n1 : string) (c : ascii) :
  a0 ++ String c EmptyString = a' ++ n1 -> n1 <> EmptyString ->
  exists n1', n1 = n1' ++ String c EmptyString.
Proof.
  intros H Hn. apply append_eq_append in H.
  destruct H as [(m & -> & H)|(m & -> & ->)].
  - destruct m as [|x m].
    + exists EmptyString. symmetry. exact H.
    + cbn [append] in H. injection H as _ H.
      destruct m; [cbn [append] in H; now subst | discriminate].
  - now exists m.
Qed.

(** No occurrence across the border when [a] ends with a character that
    the needle does not contain. *)
Lemma includes_app_last (a0 b n : string) (c : ascii) :
  charIn c n = false ->
  JS.includes ((a0 ++ String c EmptyString) ++ b) n
  = JS.includes (a0 ++ String c EmptyString) n || JS.includes b n.
Proof.
  intros Hc. apply includes_app_bool. intros H.
  apply includes_app_split in H.
  destruct H as [H|[H|(n1 & n2 & a' & b' & -> & Hn1 & _ & Ha & _)]];
    [now left | now right |].
  destruct (ends_with_char _ _ _ _ Ha Hn1) as [n1' ->].
  rewrite !charIn_app in Hc. cbn [charIn] in Hc.
  rewrite Ascii.eqb_refl in Hc. cbn in Hc.
  rewrite orb_true_r in Hc. discriminate.
Qed.

Lemma endStartsLike_app (c1 c2 : ascii) (n1 n2 : string) :
  n1 <> EmptyString -> startsLike c1 c2 n2 = true ->
  endStartsLike c1 c2 (n1 ++ n2) = true.
Proof.
  induction n1 as [|x n1 IH]; intros Hn H; [congruence|].
  cbn [append endStartsLike]. destruct n1 as [|y n1].
  - cbn [append]. now rewrite H.
  - rewrite IH by (auto; discriminate). apply orb_true_r.
Qed.

(** No occurrence across the border when [b] starts with two characters
    that no proper end of the needle starts with. *)
Lemma includes_app_first (a b0 n : string) (c1 c2 : ascii) :
  endStartsLike c1 c2 n = false ->
  JS.includes (a ++ String c1 (String c2 b0)) n
  = JS.includes a n || JS.includes (String c1 (String c2 b0)) n.
Proof.
  intros Hc. apply includes_app_bool. intros H.
  apply includes_app_split in H.
  destruct H as [H|[H|(n1 & n2 & a' & b' & -> & Hn1 & Hn2 & _ & Hb)]];
    [now left | now right |].
  rewrite endStartsLike_app in Hc; [discriminate | exact Hn1 |].
  destruct n2 as [|x [|y n2]]; [congruence | |];
    cbn [append] in Hb; cbn [startsLike].
  - injection Hb as -> _. apply Ascii.eqb_refl.
  - injection Hb as -> -> _. now rewrite !Ascii.eqb_refl.
Qed.

(** *** Occurrences in a column line *)

Lemma concat_empty_cons (x : string) (l : list string) :
  String.concat EmptyString (x :: l) = x ++ String.concat EmptyString l.
Proof.
  destruct l as [|y l]; cbn [String.concat]; [now rewrite app_nil_r_s | reflexivity].
Qed.

Lemma includes_self (s : string) : JS.includes s s = true.
Proof. apply includes_iff. exists EmptyString, EmptyString. now rewrite app_nil_r_s. Qed.

Lemma includes_concat_member (s : string) (l : list string) :
  In s l -> JS.includes (String.concat EmptyString l) s = true.
Proof.
  induction l as [|x l IH]; intros H; [contradiction|].
  rewrite concat_empty_cons. destruct H as [->|H].
  - apply includes_app_l, includes_self.
  - apply includes_app_r, IH, H.
Qed.

(** The text of every clause of a column occurs in its line. *)
Lemma columnDef_includes_clause (col : ColumnInfo) (c : clause) :
  In c (columnClauses col) ->
  JS.includes (columnDef col) (clauseText c) = true.
Proof.
  intros H. rewrite columnDef_clauses.
  apply includes_concat_member, in_map, H.
Qed.

Lemma constraint_clause_text (c : clause) (h : ascii) :
  clauseHead c = Some h ->
  exists rest, clauseText c = String " "%char (String h rest).
Proof.
  destruct c; cbn [clauseHead]; intros H; try discriminate;
    injection H as <-; eexists; reflexivity.
Qed.

Lemma includes_constraints (n a : string) (l : list clause) :
  forallb (borderSafe n) l = true ->
  Forall (fun c => clauseHead c <> None) l ->
  JS.includes (a ++ String.concat EmptyString (map clauseText l)) n
  = JS.includes a n || existsb (fun c => JS.includes (clauseText c) n) l.
Proof.
  revert a; induction l as [|c l IH]; intros a Hs Hh.
  - cbn [map String.concat existsb]. now rewrite app_nil_r_s, orb_false_r.
  - cbn [forallb] in Hs. apply andb_true_iff in Hs. destruct Hs as [Hc Hs].
    inversion Hh as [|? ? Hc' Hl]; subst.
    cbn [map existsb]. rewrite concat_empty_cons.
    unfold borderSafe in Hc.
    destruct (clauseHead c) as [h|] eqn:E; [|congruence].
    destruct (constraint_clause_text c h E) as [rest Et].
    rewrite <- (IH (clauseText c) Hs Hl).
    rewrite Et. cbn [append].
    apply includes_app_first. now apply negb_true_iff.
Qed.

Lemma constraintClauses_heads (col : ColumnInfo) :
  Forall (fun c => clauseHead c <> None) (constraintClauses col).
Proof.
  unfold constraintClauses.
  destruct (JS.truthy (notnull col) && negb (JS.truthy (pk col)));
    destruct (JS.truthy (pk col));
    destruct (JS.includes (JS.toLowerCase (type col)) "integer");
    destruct (dflt_value col);
    repeat constructor; discriminate.
Qed.

(** An occurrence of a needle in a column line lies within one clause,
    provided the needle has no backtick and cannot lie across the border
    before any of the constraint clauses of the line. *)
Lemma columnDef_includes (n : string) (col : ColumnInfo) :
  charIn "`"%char n = false ->
  forallb (borderSafe n) (columnClauses col) = true ->
  JS.includes (columnDef col) n
  = existsb (fun c => JS.includes (clauseText c) n) (columnClauses col).
Proof.
  intros Hq Hs. rewrite columnDef_clauses.
  unfold columnClauses in *.
  cbn [map existsb forallb] in *.
  apply andb_true_iff in Hs. destruct Hs as [_ Hs].
  apply andb_true_iff in Hs. destruct Hs as [_ Hs].
  rewrite !concat_empty_cons.
  cbn [clauseText].
  replace ("  `" ++ name col ++ "`")
    with (("  `" ++ name col) ++ String "`"%char EmptyString)
    by now rewrite app_assoc_s.
  rewrite includes_app_last by exact Hq.
  rewrite (includes_constraints n _ _ Hs (constraintClauses_heads col)).
  now rewrite orb_assoc.
Qed.

Lemma notNull_in_iff (col : ColumnInfo) :
  In NotNull (columnClauses col)
  <-> JS.truthy (notnull col) = true /\ JS.truthy (pk col) = false.
Proof.
  unfold columnClauses, constraintClauses.
  destruct (JS.truthy (notnull col)); destruct (JS.truthy (pk col));
    destruct (JS.includes (JS.toLowerCase (type col)) "integer");
    destruct (dflt_value col); cbn; intuition congruence.
Qed.

Lemma autoIncrement_in_iff (col : ColumnInfo) :
  In AutoIncrement (columnClauses col)
  <-> JS.truthy (pk col) = true
      /\ JS.includes (JS.toLowerCase (type col)) "integer" = true.
Proof.
  unfold columnClauses, constraintClauses.
  destruct (JS.truthy (notnull col)); destruct (JS.truthy (pk col));
    destruct (JS.includes (JS.toLowerCase (type col)) "integer");
    destruct (dflt_value col); cbn; intuition congruence.
Qed.

Lemma primaryKey_in_iff (col : ColumnInfo) :
  In PrimaryKey (columnClauses col) <-> JS.truthy (pk col) = true.
Proof.
  unfold columnClauses, constraintClauses.
  destruct (JS.truthy (notnull col)); destruct (JS.truthy (pk col));
    destruct (JS.includes (JS.toLowerCase (type col)) "integer");
    destruct (dflt_value col); cbn; intuition congruence.
Qed.

Lemma borderSafe_not_null (col : ColumnInfo) :
  ~ In NotNull (columnClauses col) ->
  forallb (borderSafe "NOT NULL") (columnClauses col) = true.
Proof.
  rewrite notNull_in_iff. unfold columnClauses, constraintClauses.
  destruct (JS.truthy (notnull col)); destruct (JS.truthy (pk col));
    destruct (JS.includes (JS.toLowerCase (type col)) "integer");
    destruct (dflt_value col); intros H; try reflexivity;
    exfalso; apply H; split; reflexivity.
Qed.

Lemma borderSafe_auto_increment (col : ColumnInfo) :
  forallb (borderSafe "AUTO_INCREMENT") (columnClauses col) = true.
Proof.
  unfold columnClauses, constraintClauses.
  destruct (JS.truthy (notnull col) && negb (JS.truthy (pk col)));
    destruct (JS.truthy (pk col));
    destruct (JS.includes (JS.toLowerCase (type col)) "integer");
    destruct (dflt_value col); reflexivity.
Qed.

Lemma existsb_false_iff {A : Type} (f : A -> bool) (l : list A) :
  existsb f l = false <-> forall x, In x l -> f x = false.
Proof.
  induction l as [|a l IH]; cbn [existsb In].
  - split; [intros _ x [] | reflexivity].
  - rewrite orb_false_iff, IH. split.
    + intros [Ha Hl] x [<-|Hx]; auto.
    + intros H. split; [apply H; now left | intros x Hx; apply H; now right].
Qed.

Lemma in_or_not {A : Type} (x : A) (l : list A) :
  (forall y : A, y = x \/ y <> x) -> In x l \/ ~ In x l.
Proof.
  intros Hdec. induction l as [|c l IH]; [right; intros []|].
  destruct (Hdec c) as [->|Hc]; [left; now left|].
  destruct IH as [IH|IH]; [left; now right|].
  right. intros [E|E]; [now apply Hc | now apply IH].
Qed.

(** A needle that occurs in the text of one clause only, and cannot lie
    across a border, occurs in the line exactly when that clause is there. *)
Lemma columnDef_includes_marker (n : string) (marker : clause)
  (col : ColumnInfo) :
  charIn "`"%char n = false ->
  (~ In marker (columnClauses col) ->
   forallb (borderSafe n) (columnClauses col) = true) ->
  JS.includes (clauseText marker) n = true ->
  (forall c, In c (columnClauses col) -> c <> marker ->
             JS.includes (clauseText c) n = false) ->
  (forall c : clause, c = marker \/ c <> marker) ->
  JS.includes (columnDef col) n = true <-> In marker (columnClauses col).
Proof.
  intros Hq Hs Hm Hfree Hdec. split.
  - intros H.
    destruct (in_or_not marker (columnClauses col) Hdec) as [Hin|Hout];
      [exact Hin|].
    rewrite (columnDef_includes n col Hq (Hs Hout)) in H.
    assert (E : existsb (fun c => JS.includes (clauseText c) n)
                  (columnClauses col) = false).
    { apply existsb_false_iff. intros c Hc. apply Hfree; [exact Hc|].
      intros ->. now apply Hout. }
    congruence.
  - intros H. destruct (includes_iff (clauseText marker) n) as [Hx _].
    destruct (Hx Hm) as (a & b & E).
    pose proof (columnDef_includes_clause col marker H) as Hd.
    apply includes_iff in Hd. destruct Hd as (x & y & Hd).
    apply includes_iff. exists (x ++ a), (b ++ y).
    rewrite Hd, E. now rewrite !app_assoc_s.
Qed.

Lemma clause_eq_dec_NotNull (c : clause) : c = NotNull \/ c <> NotNull.
Proof. destruct c; (now left) || (right; discriminate). Qed.

Lemma clause_eq_dec_AutoIncrement (c : clause) :
  c = AutoIncrement \/ c <> AutoIncrement.
Proof. destruct c; (now left) || (right; discriminate). Qed.

(** C7: the line of a column carries the clause NOT NULL exactly when
    the not-null flag of the column is set and its primary-key flag is not;
    a primary-key column never carries it.  The line is the concatenation of
    its clauses; the clause's text occurs in the line when the clause is
    there, and when no other clause of the line (quoted name, mapped type,
    default) has NOT NULL in its own text, the text occurs in the line
    only then. *)
Theorem columnDef_not_null (col : ColumnInfo) :
  columnDef col
  = String.concat EmptyString (map clauseText (columnClauses col))
  /\ (In NotNull (columnClauses col)
      <-> JS.truthy (notnull col) = true /\ JS.truthy (pk col) = false)
  /\ (JS.truthy (pk col) = true -> ~ In NotNull (columnClauses col))
  /\ (JS.truthy (notnull col) = true /\ JS.truthy (pk col) = false ->
      JS.includes (columnDef col) " NOT NULL" = true)
  /\ ((forall c, In c (columnClauses col) -> c <> NotNull ->
                 JS.includes (clauseText c) "NOT NULL" = false) ->
      (JS.includes (columnDef col) "NOT NULL" = true
       <-> JS.truthy (notnull col) = true /\ JS.truthy (pk col) = false)).
Proof.
  split; [apply columnDef_clauses|].
  split; [apply notNull_in_iff|].
  split; [rewrite notNull_in_iff; intros H [_ H']; congruence|].
  split.
  - intros H. apply notNull_in_iff in H.
    exact (columnDef_includes_clause col NotNull H).
  - intros Hfree. rewrite <- notNull_in_iff.
    apply columnDef_includes_marker.
    + reflexivity.
    + apply borderSafe_not_null.
    + reflexivity.
    + exact Hfree.
    + apply clause_eq_dec_NotNull.
Qed.

Lemma columnDef_not_null_witness :
  JS.includes (columnDef Sample.nameColumn) "NOT NULL" = true
  /\ ~ In NotNull (columnClauses Sample.integerKey)
  /\ ~ JS.includes (columnDef Sample.integerKey) "NOT NULL" = true.
Proof.
  destruct (columnDef_not_null Sample.nameColumn) as (_ & _ & _ & _ & H).
  destruct (columnDef_not_null Sample.integerKey) as (_ & _ & K & _ & H').
  split; [|split].
  - apply H.
    + intros c Hin Hc. cbn in Hin.
      destruct Hin as [<-|[<-|[<-|[]]]];
        [reflexivity | reflexivity | now elim Hc].
    + split; reflexivity.
  - apply K. reflexivity.
  - intros E. apply H' in E.
    + destruct E as [_ E]. discriminate E.
    + intros c Hin Hc. cbn in Hin.
      destruct Hin as [<-|[<-|[<-|[<-|[]]]]]; reflexivity.
Defined.

(** C2, as the code has it: the line of a primary-key column whose declared
    type, lowered, contains integer carries both PRIMARY KEY and
    AUTO_INCREMENT; the line of a primary-key column whose declared type
    does not contain integer carries no AUTO_INCREMENT clause, and the text
    does not occur in it unless one of its clauses has it in its own text. *)
Theorem columnDef_auto_increment (col : ColumnInfo) :
  JS.truthy (pk col) = true ->
  (JS.includes (JS.toLowerCase (type col)) "integer" = true ->
   In PrimaryKey (columnClauses col)
   /\ In AutoIncrement (columnClauses col)
   /\ JS.includes (columnDef col) " PRIMARY KEY" = true
   /\ JS.includes (columnDef col) " AUTO_INCREMENT" = true)
  /\ (JS.includes (JS.toLowerCase (type col)) "integer" = false ->
      ~ In AutoIncrement (columnClauses col)
      /\ ((forall c, In c (columnClauses col) ->
                     JS.includes (clauseText c) "AUTO_INCREMENT" = false) ->
          JS.includes (columnDef col) "AUTO_INCREMENT" = false)).
Proof.
  intros Hpk. split.
  - intros Hint.
    assert (Hp : In PrimaryKey (columnClauses col))
      by now apply primaryKey_in_iff.
    assert (Ha : In AutoIncrement (columnClauses col))
      by now apply autoIncrement_in_iff.
    repeat split; try assumption.
    + exact (columnDef_includes_clause col PrimaryKey Hp).
    + exact (columnDef_includes_clause col AutoIncrement Ha).
  - intros Hint. split.
    + rewrite autoIncrement_in_iff. intros [_ H]. congruence.
    + intros Hfree.
      rewrite (columnDef_includes "AUTO_INCREMENT" col eq_refl
                 (borderSafe_auto_increment col)).
      now apply existsb_false_iff.
Qed.

Lemma columnDef_auto_increment_witness :
  columnDef Sample.integerKey = "  `id` INT PRIMARY KEY AUTO_INCREMENT"
  /\ JS.includes (columnDef Sample.integerKey) " AUTO_INCREMENT" = true
  /\ columnDef Sample.uuidKey = "  `uuid` VARCHAR(36) PRIMARY KEY"
  /\ JS.includes (columnDef Sample.uuidKey) "AUTO_INCREMENT" = false.
Proof.
  destruct (columnDef_auto_increment Sample.integerKey eq_refl) as [H _].
  destruct (columnDef_auto_increment Sample.uuidKey eq_refl) as [_ K].
  split; [reflexivity|]. split; [apply H; reflexivity|].
  split; [reflexivity|].
  apply K; [reflexivity|].
  intros c Hin. cbn in Hin.
  destruct Hin as [<-|[<-|[<-|[]]]]; reflexivity.
Defined.

(** C2, as the specification has it, fails: a primary key declared [INT]
    has integer affinity and maps to [INT], yet its line has no
    AUTO_INCREMENT. *)
Lemma int_key_without_auto_increment :
  JS.truthy (pk Sample.intKey) = true
  /\ Spec.integerAffinity (type Sample.intKey) = true
  /\ convertSQLiteType (type Sample.intKey) = "INT"
  /\ columnDef Sample.intKey = "  `id` INT PRIMARY KEY"
  /\ JS.includes (columnDef Sample.intKey) "AUTO_INCREMENT" = false.
Proof. repeat split; reflexivity. Qed.

(** ** The run of the exporter *)

Lemma fold_left_push {A B : Type} (f : A -> B) (l : list A) (acc : list B) :
  fold_left (fun statements x => push statements (f x)) l acc
  = (acc ++ map f l)%list.
Proof.
  revert acc; induction l as [|x l IH]; intros acc; cbn [fold_left map].
  - now rewrite app_nil_r.
  - rewrite IH. unfold push. now rewrite <- app_assoc.
Qed.

Lemma insertStatementsOf_map (tableName : string) (row0 : JS.object)
  (rows : list JS.object) :
  insertStatementsOf tableName (row0 :: rows)
  = map (insertStatement tableName
           (JS.join ", " (map (fun col => "`" ++ col ++ "`") (JS.keys row0)))
           (JS.keys row0))
        (row0 :: rows).
Proof. unfold insertStatementsOf. now rewrite fold_left_push. Qed.

Lemma exportTable_run (w : World) (t : string) (s : list string) (tr : trace) :
  exportTable w t s tr
  = (mapOutcome (fun b => (s ++ b)%list) (blockOf w t),
     (tr ++ readsOf w t)%list).
Proof.
  unfold exportTable, getCreateTableSQL, getColumnInfo, getInsertStatements,
    bind, callback, resolve, reject, blockOf, readsOf, push.
  destruct (pragmaAnswer w (pragmaQuery t)) as [columns|e]; cbn [isResolved];
    [|reflexivity].
  destruct (selectAnswer w (selectQuery t)) as [rows|e]; cbn [isResolved].
  - destruct (insertStatementsOf t rows) as [|i l];
      cbn [List.length Nat.ltb Nat.leb mapOutcome];
      rewrite <- !app_assoc; reflexivity.
  - now rewrite <- !app_assoc.
Qed.

Lemma forOf_run (w : World) (tables : list string) (s : list string)
  (tr : trace) :
  forOf tables (exportTable w) s tr
  = (mapOutcome (fun b => (s ++ b)%list) (blocksOf w tables),
     (tr ++ readsOfAll w tables)%list).
Proof.
  revert s tr; induction tables as [|t tables IH]; intros s tr;
    cbn [forOf blocksOf readsOfAll].
  - unfold resolve. cbn [mapOutcome]. now rewrite !app_nil_r.
  - unfold bind. rewrite exportTable_run.
    destruct (blockOf w t) as [b|e]; cbn [mapOutcome isResolved].
    + rewrite IH. rewrite <- !app_assoc.
      destruct (blocksOf w tables); cbn [mapOutcome];
        now rewrite <- ?app_assoc.
    + now rewrite app_nil_r.
Qed.

Lemma buildStatements_run (w : World) (now : string) (tr : trace) :
  buildStatements w now tr
  = (mapOutcome (fun b => (header now ++ b)%list) (documentBody w),
     (tr ++ readsOfRun w)%list).
Proof.
  unfold buildStatements, getTables, bind, callback, resolve, reject,
    documentBody, readsOfRun, Sqlite.selectTableNames.
  destruct (sqlite_master w) as [master|e]; cbn [isResolved mapOutcome];
    [|reflexivity].
  rewrite forOf_run. now rewrite <- app_assoc.
Qed.

(** The whole run: the queries, then, when all of them succeeded, one write
    of the joined lines. *)
Lemma export_run (w : World) (now outputFile : string) (tr : trace) :
  export w now outputFile tr
  = match documentBody w with
    | Rejected e => (Rejected e, (tr ++ readsOfRun w)%list)
    | Resolved body =>
        let sqlContent := JS.join JS.LF (header now ++ body)%list in
        (writeAnswer w outputFile sqlContent,
         (tr ++ readsOfRun w
             ++ [FsWriteFile outputFile sqlContent
                   (isResolved (writeAnswer w outputFile sqlContent))])%list)
    end.
Proof.
  unfold export, bind. rewrite buildStatements_run.
  destruct (documentBody w) as [body|e]; cbn [mapOutcome]; [|reflexivity].
  unfold writeFile, perform, callback, resolve, reject.
  rewrite <- app_assoc.
  now destruct (writeAnswer w outputFile _).
Qed.

(** *** Failures of the reads *)

Lemma isResolved_mapOutcome {A B : Type} (f : A -> B) (o : outcome A) :
  isResolved (mapOutcome f o) = isResolved o.
Proof. now destruct o. Qed.

Lemma blockOf_resolved (w : World) (t : string) :
  isResolved (blockOf w t)
  = isResolved (pragmaAnswer w (pragmaQuery t))
    && isResolved (selectAnswer w (selectQuery t)).
Proof.
  unfold blockOf.
  destruct (pragmaAnswer w (pragmaQuery t)); [|reflexivity].
  now destruct (selectAnswer w (selectQuery t)).
Qed.

Lemma blocksOf_rejected (w : World) (tables : list string) (t : string) :
  In t tables -> isResolved (blockOf w t) = false ->
  isResolved (blocksOf w tables) = false.
Proof.
  induction tables as [|u tables IH]; intros Hin Ht; [contradiction|].
  cbn [blocksOf]. destruct Hin as [->|Hin].
  - destruct (blockOf w t); [discriminate | reflexivity].
  - destruct (blockOf w u); [|reflexivity].
    rewrite isResolved_mapOutcome. now apply IH.
Qed.

Lemma writes_app (tr1 tr2 : trace) :
  writes (tr1 ++ tr2)%list = (writes tr1 ++ writes tr2)%list.
Proof. apply filter_app. Qed.

Lemma writes_readsOf (w : World) (t : string) : writes (readsOf w t) = [].
Proof.
  unfold readsOf. now destruct (isResolved (pragmaAnswer w (pragmaQuery t))).
Qed.

Lemma writes_readsOfAll (w : World) (tables : list string) :
  writes (readsOfAll w tables) = [].
Proof.
  induction tables as [|t tables IH]; [reflexivity|].
  cbn [readsOfAll]. rewrite writes_app, writes_readsOf.
  now destruct (isResolved (blockOf w t)).
Qed.

Lemma writes_readsOfRun (w : World) : writes (readsOfRun w) = [].
Proof.
  unfold readsOfRun. destruct (sqlite_master w); [|reflexivity].
  cbn [writes filter isWrite]. apply writes_readsOfAll.
Qed.

Lemma failedRead_readsOf (w : World) (t : string) :
  existsb failedRead (readsOf w t) = negb (isResolved (blockOf w t)).
Proof.
  rewrite blockOf_resolved. unfold readsOf.
  destruct (isResolved (pragmaAnswer w (pragmaQuery t))); [|reflexivity].
  cbn. now rewrite !orb_false_r.
Qed.

Lemma failedRead_readsOfAll (w : World) (tables : list string) :
  existsb failedRead (readsOfAll w tables)
  = negb (isResolved (blocksOf w tables)).
Proof.
  induction tables as [|t tables IH]; [reflexivity|].
  cbn [readsOfAll blocksOf]. rewrite existsb_app, failedRead_readsOf.
  destruct (blockOf w t); cbn [isResolved negb orb]; [|reflexivity].
  now rewrite isResolved_mapOutcome.
Qed.

Lemma failedRead_readsOfRun (w : World) :
  existsb failedRead (readsOfRun w) = negb (isResolved (documentBody w)).
Proof.
  unfold readsOfRun, documentBody.
  destruct (sqlite_master w); [|reflexivity].
  cbn [existsb failedRead negb orb]. apply failedRead_readsOfAll.
Qed.

(** C4: when the schema query or the row query of some table fails, the
    run rejects and no file write has taken place, whatever was built for
    the tables before; a run writes at most once, a write comes after every
    query, and it is there only if every query succeeded. *)
Theorem export_read_failure_no_write (w : World) (now outputFile : string) :
  (forall (master : list Sqlite.masterRow) (t : string),
      sqlite_master w = Resolved master ->
      In t (Sqlite.selectTableNames master) ->
      isResolved (pragmaAnswer w (pragmaQuery t)) = false
      \/ isResolved (selectAnswer w (selectQuery t)) = false ->
      exists e tr,
        export w now outputFile [] = (Rejected e, tr) /\ writes tr = [])
  /\ (List.length (writes (snd (export w now outputFile []))) <= 1)%nat
  /\ (exists reads,
         writes reads = []
         /\ (snd (export w now outputFile []) = reads
             \/ exists content ok,
                 snd (export w now outputFile [])
                 = (reads ++ [FsWriteFile outputFile content ok])%list
                 /\ existsb failedRead reads = false)).
Proof.
  rewrite export_run. split; [|split].
  - intros master t Hm Hin Hfail.
    assert (Hb : isResolved (documentBody w) = false).
    { unfold documentBody. rewrite Hm.
      apply (blocksOf_rejected w _ t Hin).
      rewrite blockOf_resolved.
      destruct Hfail as [-> | ->]; [reflexivity | apply andb_false_r]. }
    destruct (documentBody w) as [body|e]; [discriminate|].
    exists e, (readsOfRun w). split; [reflexivity | apply writes_readsOfRun].
  - destruct (documentBody w) as [body|e]; cbn [snd app].
    + rewrite writes_app, writes_readsOfRun. cbn. lia.
    + rewrite writes_readsOfRun. cbn. lia.
  - exists (readsOfRun w). split; [apply writes_readsOfRun|].
    pose proof (failedRead_readsOfRun w) as Hf.
    destruct (documentBody w) as [body|e]; cbn [snd app].
    + right. eexists _, _. split; [reflexivity | exact Hf].
    + now left.
Qed.

Lemma export_read_failure_no_write_witness :
  exists e tr,
    export (Sample.world "SELECT * FROM items")
      "2024-01-15T10:30:00.000Z" "out.sql" []
    = (Rejected e, tr)
    /\ writes tr = [].
Proof.
  apply (proj1 (export_read_failure_no_write
                  (Sample.world "SELECT * FROM items")
                  "2024-01-15T10:30:00.000Z" "out.sql")
           Sample.catalog "items").
  - reflexivity.
  - right. left. reflexivity.
  - right. reflexivity.
Defined.

(** *** Insertion statements *)

(** C8: when the row query of a table returns at least one row, there is
    one INSERT statement per row, in the order of the rows; each has the
    column list made of the keys of the first row, in their order, and lists
    the values of its own row under those keys, in that same order. *)
Theorem insert_statements_column_order (w : World) (tableName : string)
  (row0 : JS.object) (rows : list JS.object) (tr : trace) :
  selectAnswer w (selectQuery tableName) = Resolved (row0 :: rows) ->
  let columns := JS.keys row0 in
  let columnList := JS.join ", " (map (fun col => "`" ++ col ++ "`") columns) in
  fst (getInsertStatements w tableName tr)
  = Resolved
      (map (fun row =>
              "INSERT INTO `" ++ tableName ++ "` (" ++ columnList
                ++ ") VALUES ("
                ++ JS.joinValues ", "
                     (map (fun col => cellValue row col) columns)
                ++ ");")
           (row0 :: rows)).
Proof.
  intros H. unfold getInsertStatements, callback, resolve.
  rewrite H. cbn [fst]. now rewrite insertStatementsOf_map.
Qed.

Lemma insert_statements_column_order_witness :
  fst (getInsertStatements (Sample.world EmptyString) "items" [])
  = Resolved
      [ "INSERT INTO `items` (`id`, `name`, `price`) VALUES (1, 'Tea', 3.5);";
        "INSERT INTO `items` (`id`, `name`, `price`) VALUES (2, 'O''Brien''s Mug', NULL);" ].
Proof.
  exact (insert_statements_column_order (Sample.world EmptyString) "items"
           (hd [] Sample.itemsRows) (tl Sample.itemsRows) [] eq_refl).
Defined.

(** *** Determinism *)

Lemma join_header (now : string) (body : list string) :
  JS.join JS.LF (header now ++ body)%list
  = "-- Exported from SQLite database" ++ JS.LF
      ++ "-- Generated on " ++ now ++ JS.LF
      ++ JS.join JS.LF (EmptyString :: body).
Proof.
  unfold header, push, JS.join. cbn [List.app String.concat].
  now rewrite !app_assoc_s.
Qed.

(** C9: the run is the same up to the timestamp.  The queries sent and the
    text of the document after the timestamp line do not depend on the
    instant of the run: the document is the banner line, the line of the
    timestamp and a rest that the source fixes, so two runs over the same
    source and destination differ in the text of the timestamp at most. *)
Theorem export_same_up_to_timestamp (w : World) (outputFile : string) :
  exists (reads : trace) (rest : outcome string),
    writes reads = []
    /\ forall now : string,
        export w now outputFile []
        = match rest with
          | Rejected e => (Rejected e, reads)
          | Resolved rest =>
              let sqlContent :=
                "-- Exported from SQLite database" ++ JS.LF
                  ++ "-- Generated on " ++ now ++ JS.LF ++ rest in
              (writeAnswer w outputFile sqlContent,
               (reads
                  ++ [FsWriteFile outputFile sqlContent
                        (isResolved (writeAnswer w outputFile sqlContent))])%list)
          end.
Proof.
  exists (readsOfRun w),
    (mapOutcome (fun body => JS.join JS.LF (EmptyString :: body))
       (documentBody w)).
  split; [apply writes_readsOfRun|].
  intros now. rewrite export_run.
  destruct (documentBody w) as [body|e]; cbn [mapOutcome List.app];
    [|reflexivity].
  cbv zeta. now rewrite join_header.
Qed.

(** *** Tables without rows *)

Lemma blocksOf_in (w : World) (tables : list string) (bs : list string)
  (x : string) :
  blocksOf w tables = Resolved bs -> In x bs ->
  exists u b, In u tables /\ blockOf w u = Resolved b /\ In x b.
Proof.
  revert bs; induction tables as [|u tables IH]; intros bs H Hx;
    cbn [blocksOf] in H.
  - injection H as <-. contradiction.
  - destruct (blockOf w u) as [b|e] eqn:Eb; [|discriminate].
    destruct (blocksOf w tables) as [bs'|e]; [|discriminate].
    injection H as <-. apply in_app_or in Hx. destruct Hx as [Hx|Hx].
    + exists u, b. repeat split; [now left | exact Eb | exact Hx].
    + destruct (IH bs' eq_refl Hx) as (u' & b' & Hu & Hb & Hin).
      exists u', b'. repeat split; [now right | exact Hb | exact Hin].
Qed.

Lemma blocksOf_block (w : World) (tables : list string) (bs : list string)
  (t : string) :
  blocksOf w tables = Resolved bs -> In t tables ->
  exists b before after,
    blockOf w t = Resolved b /\ bs = (before ++ b ++ after)%list.
Proof.
  revert bs; induction tables as [|u tables IH]; intros bs H Ht;
    [contradiction|].
  cbn [blocksOf] in H.
  destruct (blockOf w u) as [b|e] eqn:Eb; [|discriminate].
  destruct (blocksOf w tables) as [bs'|e]; [|discriminate].
  injection H as <-. destruct Ht as [->|Ht].
  - exists b, [], bs'. split; [exact Eb | reflexivity].
  - destruct (IH bs' eq_refl Ht) as (b' & before & after & Hb & ->).
    exists b', (b ++ before)%list, after. split; [exact Hb|].
    now rewrite <- app_assoc.
Qed.

Lemma blockOf_empty (w : World) (t : string) (columns : list ColumnInfo) :
  pragmaAnswer w (pragmaQuery t) = Resolved columns ->
  selectAnswer w (selectQuery t) = Resolved [] ->
  blockOf w t
  = Resolved ["-- Table: " ++ t; createTableText t columns; EmptyString].
Proof. intros Hp Hs. unfold blockOf. now rewrite Hp, Hs. Qed.

Lemma insertStatementsOf_shape (t x : string) (rows : list JS.object) :
  In x (insertStatementsOf t rows) ->
  exists rest, x = "INSERT INTO `" ++ rest.
Proof.
  destruct rows as [|row0 rows]; [intros []|].
  rewrite insertStatementsOf_map. intros H.
  apply in_map_iff in H. destruct H as (row & <- & _).
  unfold insertStatement. eexists. reflexivity.
Qed.

Lemma append_inv_head (p a b : string) : p ++ a = p ++ b -> a = b.
Proof.
  induction p as [|c p IH]; cbn [append]; intros H; [exact H|].
  injection H as H. now apply IH.
Qed.

(** No block has the data comment of a table whose row query returns no
    row. *)
Lemma data_comment_not_in_block (w : World) (u t : string) (b : list string) :
  selectAnswer w (selectQuery t) = Resolved [] ->
  blockOf w u = Resolved b ->
  ~ In ("-- Data for table: " ++ t) b.
Proof.
  intros Hs Hb Hin. unfold blockOf in Hb.
  destruct (pragmaAnswer w (pragmaQuery u)) as [columns|e]; [|discriminate].
  destruct (selectAnswer w (selectQuery u)) as [rows|e] eqn:Hu; [|discriminate].
  injection Hb as <-.
  cbn [List.app In] in Hin.
  destruct Hin as [H|[H|[H|Hin]]]; try discriminate H.
  destruct (insertStatementsOf u rows) as [|i l] eqn:Ei; [contradiction|].
  destruct Hin as [H|Hin].
  - apply (append_inv_head "-- Data for table: ") in H. subst u.
    rewrite Hs in Hu. injection Hu as <-. discriminate Ei.
  - apply in_app_or in Hin. destruct Hin as [Hin|[H|[]]];
      [|discriminate H].
    rewrite <- Ei in Hin. apply insertStatementsOf_shape in Hin.
    destruct Hin as [rest H]. discriminate H.
Qed.

(** C6: a table whose row query returns no row contributes its comment, its
    table definition and a blank line, and nothing else: no INSERT statement
    and no data comment; and the document as a whole has the definition and
    has no data comment of that table. *)
Theorem empty_table_no_data_section (w : World) (t : string)
  (columns : list ColumnInfo) :
  pragmaAnswer w (pragmaQuery t) = Resolved columns ->
  selectAnswer w (selectQuery t) = Resolved [] ->
  (forall tr, fst (getInsertStatements w t tr) = Resolved [])
  /\ (forall sqlStatements tr,
         exportTable w t sqlStatements tr
         = (Resolved
              (sqlStatements
                 ++ [("-- Table: " ++ t)%string; createTableText t columns;
                     EmptyString])%list,
            (tr ++ [DbAll (pragmaQuery t) true; DbAll (selectQuery t) true])%list))
  /\ (forall now master lines tr,
         sqlite_master w = Resolved master ->
         In t (Sqlite.selectTableNames master) ->
         buildStatements w now [] = (Resolved lines, tr) ->
         (exists before after,
             lines
             = (before
                  ++ [("-- Table: " ++ t)%string; createTableText t columns;
                      EmptyString]
                  ++ after)%list)
         /\ In (createTableText t columns) lines
         /\ ~ In ("-- Data for table: " ++ t) lines).
Proof.
  intros Hp Hs. split; [|split].
  - intros tr. unfold getInsertStatements, callback, resolve.
    now rewrite Hs.
  - intros s tr. rewrite exportTable_run, (blockOf_empty w t columns Hp Hs).
    unfold readsOf. now rewrite Hp, Hs.
  - intros now master lines tr Hm Hin Hb.
    rewrite buildStatements_run in Hb. unfold documentBody in Hb.
    rewrite Hm in Hb.
    destruct (blocksOf w (Sqlite.selectTableNames master)) as [bs|e] eqn:Ebs;
      [|discriminate].
    cbn [mapOutcome] in Hb.
    assert (El : lines = (header now ++ bs)%list) by congruence.
    clear Hb. subst lines.
    destruct (blocksOf_block w _ bs t Ebs Hin)
      as (b & before & after & Hbt & ->).
    rewrite (blockOf_empty w t columns Hp Hs) in Hbt. injection Hbt as <-.
    split; [|split].
    + exists (header now ++ before)%list, after. now rewrite <- app_assoc.
    + apply in_or_app. right. apply in_or_app. right.
      apply in_or_app. left. right. now left.
    + intros Hx. apply in_app_or in Hx. destruct Hx as [Hx|Hx].
      * cbn in Hx. destruct Hx as [H|[H|[H|[]]]]; discriminate H.
      * destruct (blocksOf_in w _ _ _ Ebs Hx) as (u & b & _ & Hb & Hxb).
        exact (data_comment_not_in_block w u t b Hs Hb Hxb).
Qed.

Lemma empty_table_no_data_section_witness :
  exists lines tr,
    buildStatements (Sample.world EmptyString) "2024-01-15T10:30:00.000Z" []
    = (Resolved lines, tr)
    /\ In (createTableText "audit" Sample.logColumns) lines
    /\ ~ In "-- Data for table: audit" lines.
Proof.
  pose proof (proj2 (proj2 (empty_table_no_data_section
                              (Sample.world EmptyString) "audit"
                              Sample.logColumns eq_refl eq_refl))
                "2024-01-15T10:30:00.000Z" Sample.catalog) as H.
  eexists _, _. split; [vm_compute; reflexivity|].
  refine (proj2 (H _ _ eq_refl _ _)).
  - left. reflexivity.
  - vm_compute. reflexivity.
Defined.

(** ** The enumeration of the tables *)

Lemma insertSorted_perm (x : string) (l : list string) :
  Permutation (x :: l) (Sqlite.insertSorted x l).
Proof.
  induction l as [|y l IH]; cbn [Sqlite.insertSorted]; [apply Permutation_refl|].
  destruct (String.leb x y); [apply Permutation_refl|].
  eapply perm_trans; [apply perm_swap | apply perm_skip, IH].
Qed.

Lemma orderBy_perm (l : list string) : Permutation l (Sqlite.orderBy l).
Proof.
  induction l as [|x l IH]; cbn [Sqlite.orderBy]; [apply perm_nil|].
  eapply perm_trans; [apply perm_skip, IH | apply insertSorted_perm].
Qed.

Lemma insertSorted_hd (x a : string) (l : list string) :
  Sqlite.nameLe a x -> HdRel Sqlite.nameLe a l -> HdRel Sqlite.nameLe a (Sqlite.insertSorted x l).
Proof.
  intros Hax Hl. destruct l as [|y l]; cbn [Sqlite.insertSorted].
  - now constructor.
  - destruct (String.leb x y); constructor; [exact Hax|].
    now inversion Hl.
Qed.

Lemma insertSorted_sorted (x : string) (l : list string) :
  Sorted Sqlite.nameLe l -> Sorted Sqlite.nameLe (Sqlite.insertSorted x l).
Proof.
  induction 1 as [|y l Hs IH Hhd]; cbn [Sqlite.insertSorted].
  - repeat constructor.
  - destruct (String.leb x y) eqn:E.
    + repeat constructor; assumption.
    + constructor; [exact IH|].
      apply insertSorted_hd; [|exact Hhd].
      destruct (String.leb_total x y) as [H|H]; [congruence | exact H].
Qed.

Lemma orderBy_sorted (l : list string) : Sorted Sqlite.nameLe (Sqlite.orderBy l).
Proof.
  induction l as [|x l IH]; cbn [Sqlite.orderBy]; [constructor|].
  now apply insertSorted_sorted.
Qed.

Lemma leb_neq_ltb (x y : string) : Sqlite.nameLe x y -> x <> y -> Sqlite.nameLt x y.
Proof.
  unfold Sqlite.nameLe, Sqlite.nameLt, String.leb, String.ltb. intros H Hne.
  destruct (String.compare x y) eqn:E; [|reflexivity|discriminate].
  apply String.compare_eq_iff in E. contradiction.
Qed.

Lemma sorted_nodup_strict (l : list string) :
  Sorted Sqlite.nameLe l -> NoDup l -> Sorted Sqlite.nameLt l.
Proof.
  induction 1 as [|x l Hs IH Hhd]; intros Hnd; [constructor|].
  inversion Hnd as [|? ? Hx Hl]; subst.
  constructor; [now apply IH|].
  destruct Hhd as [|y l Hxy]; constructor.
  apply leb_neq_ltb; [exact Hxy|].
  intros ->. apply Hx. now left.
Qed.

(** The names come out ascending in the binary order, strictly so when the
    catalog has no name twice. *)
Lemma orderBy_strict (l : list string) :
  NoDup l -> Sorted Sqlite.nameLt (Sqlite.orderBy l).
Proof.
  intros H. apply sorted_nodup_strict; [apply orderBy_sorted|].
  exact (Permutation_NoDup (orderBy_perm l) H).
Qed.

Lemma orderBy_length (l : list string) :
  List.length (Sqlite.orderBy l) = List.length l.
Proof. symmetry. apply Permutation_length, orderBy_perm. Qed.


Lemma like_any (x : string) : Sqlite.like "%" x = true.
Proof.
  induction x as [|c x IH]; [reflexivity|].
  change (Sqlite.like "%" (String c x))
    with (Sqlite.like EmptyString (String c x) || Sqlite.like "%" x).
  rewrite IH. apply orb_true_r.
Qed.

Lemma prefix_cons (a b : ascii) (p s : string) :
  String.prefix (String a p) (String b s) = Ascii.eqb a b && String.prefix p s.
Proof.
  cbn [String.prefix]. destruct (ascii_dec a b) as [->|H].
  - now rewrite Ascii.eqb_refl.
  - destruct (Ascii.eqb_spec a b); [contradiction | reflexivity].
Qed.

Lemma like_letter (p c : ascii) (pattern x : string) :
  Ascii.eqb p "%"%char = false -> Ascii.eqb p "_"%char = false ->
  Sqlite.like (String p pattern) (String c x)
  = Ascii.eqb (JS.lowerChar p) (JS.lowerChar c) && Sqlite.like pattern x.
Proof. intros H1 H2. cbn [Sqlite.like]. now rewrite H1, H2. Qed.

(** What the pattern of the query matches: the six letters of [sqlite] in
    either case, then at least one more character. *)
Lemma like_sqlite_iff (x : string) :
  Sqlite.like "sqlite_%" x
  = String.prefix "sqlite" (JS.toLowerCase x)
    && (6 <? String.length x)%nat.
Proof.
  unfold JS.toLowerCase.
  do 6 (destruct x as [|? x]; [reflexivity|];
        rewrite like_letter by reflexivity;
        cbn [JS.mapChars]; rewrite prefix_cons;
        match goal with
        | |- Ascii.eqb (JS.lowerChar ?p) _ && _ = _ =>
            let q := eval vm_compute in (JS.lowerChar p) in
            change (JS.lowerChar p) with q
        end;
        match goal with
        | |- ?e && _ = _ => destruct e; [cbn [andb] | reflexivity]
        end).
  destruct x as [|c x]; [reflexivity|].
  change (Sqlite.like "_%" (String c x)) with (Sqlite.like "%" x).
  rewrite like_any. reflexivity.
Qed.

Lemma mapChars_length (f : ascii -> ascii) (s : string) :
  String.length (JS.mapChars f s) = String.length s.
Proof. induction s as [|c s IH]; cbn; [reflexivity | now rewrite IH]. Qed.

(** Every name with the reserved prefix is matched by the pattern. *)
Lemma reserved_names_excluded (n : string) :
  Sqlite.reservedName n = true -> Sqlite.like "sqlite_%" n = true.
Proof.
  unfold Sqlite.reservedName. intros H.
  apply prefix_inv in H. destruct H as [r H].
  rewrite like_sqlite_iff. apply andb_true_iff. split.
  - rewrite H. exact (prefix_app "sqlite" ("_" ++ r)).
  - apply Nat.ltb_lt.
    rewrite <- (mapChars_length JS.lowerChar n).
    fold (JS.toLowerCase n). rewrite H. cbn [String.length append]. lia.
Qed.

Lemma filter_none {A : Type} (f : A -> bool) (l : list A) :
  (forall x, In x l -> f x = false) -> filter f l = [].
Proof.
  induction l as [|a l IH]; intros H; [reflexivity|].
  cbn [filter]. rewrite (H a) by now left.
  apply IH. intros x Hx. apply H. now right.
Qed.

Lemma insertStatements_not_create (t : string) (rows : list JS.object) :
  filter isCreateTable (insertStatementsOf t rows) = [].
Proof.
  apply filter_none. intros x Hx.
  apply insertStatementsOf_shape in Hx. destruct Hx as [rest ->].
  reflexivity.
Qed.

Lemma createTableText_is_create (t : string) (columns : list ColumnInfo) :
  isCreateTable (createTableText t columns) = true.
Proof.
  unfold isCreateTable, JS.startsWith, createTableText.
  apply prefix_app.
Qed.

(** The table definitions among the lines of a block: the one of the
    table. *)
Lemma createTable_in_block (w : World) (t : string) (b : list string) :
  blockOf w t = Resolved b ->
  exists columns,
    pragmaAnswer w (pragmaQuery t) = Resolved columns
    /\ filter isCreateTable b = [createTableText t columns].
Proof.
  unfold blockOf. intros H.
  destruct (pragmaAnswer w (pragmaQuery t)) as [columns|e]; [|discriminate].
  destruct (selectAnswer w (selectQuery t)) as [rows|e]; [|discriminate].
  injection H as <-. exists columns. split; [reflexivity|].
  cbn [List.app filter].
  rewrite createTableText_is_create.
  change (isCreateTable ("-- Table: " ++ t)) with false.
  change (isCreateTable EmptyString) with false.
  cbv iota. f_equal.
  pose proof (insertStatements_not_create t rows) as Hi.
  destruct (insertStatementsOf t rows) as [|i l]; [reflexivity|].
  cbn [filter].
  change (isCreateTable ("-- Data for table: " ++ t)) with false.
  cbv iota. rewrite filter_app, Hi. reflexivity.
Qed.

Lemma createTable_in_blocks (w : World) (tables : list string)
  (bs : list string) :
  blocksOf w tables = Resolved bs ->
  Forall2
    (fun line t =>
       exists columns,
         pragmaAnswer w (pragmaQuery t) = Resolved columns
         /\ line = createTableText t columns)
    (filter isCreateTable bs) tables.
Proof.
  revert bs; induction tables as [|t tables IH]; intros bs H;
    cbn [blocksOf] in H.
  - injection H as <-. constructor.
  - destruct (blockOf w t) as [b|e] eqn:Eb; [|discriminate].
    destruct (blocksOf w tables) as [bs'|e]; [|discriminate].
    injection H as <-. rewrite filter_app.
    destruct (createTable_in_block w t b Eb) as (columns & Hp & ->).
    cbn [List.app]. constructor; [|now apply IH].
    exists columns. now split.
Qed.

Lemma selectTableNames_eq (master : list Sqlite.masterRow) :
  Sqlite.selectTableNames master
  = Sqlite.orderBy
      (map Sqlite.mname
         (filter (fun r => String.eqb (Sqlite.mtype r) "table"
                           && negb (Sqlite.like "sqlite_%" (Sqlite.mname r)))
                 master)).
Proof.
  unfold Sqlite.selectTableNames, Sqlite.selectNames.
  rewrite map_map. apply map_id.
Qed.

Lemma kept_names_nodup (keep : Sqlite.masterRow -> bool)
  (master : list Sqlite.masterRow) :
  NoDup (map Sqlite.mname master) ->
  NoDup (map Sqlite.mname (filter keep master)).
Proof.
  induction master as [|r master IH]; cbn [map filter]; intros H;
    [constructor|].
  inversion H as [|? ? Hr Hrest]; subst.
  destruct (keep r); [|now apply IH].
  cbn [map]. constructor; [|now apply IH].
  intros Hin. apply Hr. apply in_map_iff in Hin.
  destruct Hin as (x & <- & Hx). apply in_map.
  now apply filter_In in Hx.
Qed.

(** What does hold of the enumeration: the document has one table
    definition per name the query returns, in the order of the names; the
    names ascend in the binary order, strictly when no name is twice in the
    catalog; no name with the reserved prefix is among them; and when the
    pattern matches reserved names only, there are as many table definitions
    as tables of the user. *)
Lemma create_table_per_listed_table (w : World) (now : string)
  (master : list Sqlite.masterRow) (lines : list string) (tr : trace) :
  sqlite_master w = Resolved master ->
  buildStatements w now [] = (Resolved lines, tr) ->
  Forall2
    (fun line t =>
       exists columns,
         pragmaAnswer w (pragmaQuery t) = Resolved columns
         /\ line = createTableText t columns)
    (filter isCreateTable lines) (Sqlite.selectTableNames master)
  /\ Sorted Sqlite.nameLe (Sqlite.selectTableNames master)
  /\ (NoDup (map Sqlite.mname master) ->
      Sorted Sqlite.nameLt (Sqlite.selectTableNames master))
  /\ (forall t, In t (Sqlite.selectTableNames master) ->
                Sqlite.reservedName t = false)
  /\ ((forall r, In r master ->
                 Sqlite.like "sqlite_%" (Sqlite.mname r) = true ->
                 Sqlite.reservedName (Sqlite.mname r) = true) ->
      List.length (filter isCreateTable lines)
      = List.length (filter Spec.userTable master)).
Proof.
  intros Hm Hb. rewrite buildStatements_run in Hb.
  unfold documentBody in Hb. rewrite Hm in Hb.
  destruct (blocksOf w (Sqlite.selectTableNames master)) as [bs|e] eqn:Ebs;
    [|discriminate].
  cbn [mapOutcome] in Hb.
  assert (El : lines = (header now ++ bs)%list) by congruence.
  clear Hb. subst lines.
  assert (Hf : filter isCreateTable (header now ++ bs)%list
               = filter isCreateTable bs).
  { rewrite filter_app. reflexivity. }
  rewrite Hf.
  pose proof (createTable_in_blocks w _ bs Ebs) as H2.
  split; [exact H2|].
  rewrite (Forall2_length H2). clear H2 Ebs.
  rewrite selectTableNames_eq.
  split; [apply orderBy_sorted|].
  split; [intros Hnd; apply orderBy_strict, kept_names_nodup, Hnd|].
  split.
  - intros t Ht.
    apply (Permutation_in _ (Permutation_sym (orderBy_perm _))) in Ht.
    apply in_map_iff in Ht. destruct Ht as (r & <- & Hr).
    apply filter_In in Hr. destruct Hr as [_ Hr].
    apply andb_true_iff in Hr. destruct Hr as [_ Hr].
    apply negb_true_iff in Hr.
    destruct (Sqlite.reservedName (Sqlite.mname r)) eqn:E; [|reflexivity].
    apply reserved_names_excluded in E. congruence.
  - intros Hlike. rewrite orderBy_length, length_map.
    f_equal. apply filter_ext_in. intros r Hr. unfold Spec.userTable.
    f_equal. f_equal.
    destruct (Sqlite.like "sqlite_%" (Sqlite.mname r)) eqn:E.
    + now rewrite (Hlike r Hr E).
    + destruct (Sqlite.reservedName (Sqlite.mname r)) eqn:E'; [|reflexivity].
      apply reserved_names_excluded in E'. congruence.
Qed.

(** C5 at a database whose one table, [sqlite3_data], is a table of the
    user: the pattern of the query matches the name, the enumeration is
    empty, and the document has the header and no table definition. *)
Theorem user_table_sqlite3_data_dropped :
  Sqlite.reservedName "sqlite3_data" = false
  /\ List.length (filter Spec.userTable Sample.cacheCatalog) = 1%nat
  /\ Sqlite.like "sqlite_%" "sqlite3_data" = true
  /\ Sqlite.selectTableNames Sample.cacheCatalog = []
  /\ buildStatements Sample.cacheWorld "2024-01-15T10:30:00.000Z" []
     = (Resolved (header "2024-01-15T10:30:00.000Z"),
        [DbAll tablesQuery true])
  /\ List.length
       (filter isCreateTable (header "2024-01-15T10:30:00.000Z")) = 0%nat.
Proof. repeat split; vm_compute; reflexivity. Qed.

(** ** The example of the documentation *)

Example items_table_definition :
  createTableText "items" Sample.itemsColumns
  = "CREATE TABLE `items` (" ++ JS.LF
      ++ "  `id` INT PRIMARY KEY AUTO_INCREMENT," ++ JS.LF
      ++ "  `name` TEXT NOT NULL," ++ JS.LF
      ++ "  `price` DECIMAL(10,2)" ++ JS.LF
      ++ ");".
Proof. reflexivity. Qed.

Example items_document :
  export (Sample.world EmptyString) "2024-01-15T10:30:00.000Z" "out.sql" []
  = (Resolved tt,
     [ DbAll tablesQuery true;
       DbAll "PRAGMA table_info(audit)" true;
       DbAll "SELECT * FROM audit" true;
       DbAll "PRAGMA table_info(items)" true;
       DbAll "SELECT * FROM items" true;
       FsWriteFile "out.sql"
         (JS.join JS.LF
            [ "-- Exported from SQLite database";
              "-- Generated on 2024-01-15T10:30:00.000Z";
              EmptyString;
              "-- Table: audit";
              createTableText "audit" Sample.logColumns;
              EmptyString;
              "-- Table: items";
              createTableText "items" Sample.itemsColumns;
              EmptyString;
              "-- Data for table: items";
              "INSERT INTO `items` (`id`, `name`, `price`) VALUES (1, 'Tea', 3.5);";
              "INSERT INTO `items` (`id`, `name`, `price`) VALUES (2, 'O''Brien''s Mug', NULL);";
              EmptyString ])
         true ]).
Proof. vm_compute. reflexivity. Qed.

(** * Further properties of the code *)

(** ** The type mapper *)

Lemma lowerChar_upperChar (c : ascii) :
  JS.lowerChar (JS.upperChar c) = JS.lowerChar c.
Proof. destruct c as [[] [] [] [] [] [] [] []]; reflexivity. Qed.

Lemma upperChar_lowerChar (c : ascii) :
  JS.upperChar (JS.lowerChar c) = JS.upperChar c.
Proof. destruct c as [[] [] [] [] [] [] [] []]; reflexivity. Qed.

Lemma upperChar_upperChar (c : ascii) :
  JS.upperChar (JS.upperChar c) = JS.upperChar c.
Proof. destruct c as [[] [] [] [] [] [] [] []]; reflexivity. Qed.

Lemma lowerChar_lowerChar (c : ascii) :
  JS.lowerChar (JS.lowerChar c) = JS.lowerChar c.
Proof. destruct c as [[] [] [] [] [] [] [] []]; reflexivity. Qed.

Lemma mapChars_mapChars (f g h : ascii -> ascii) (s : string) :
  (forall c, f (g c) = h c) ->
  JS.mapChars f (JS.mapChars g s) = JS.mapChars h s.
Proof.
  intros H. induction s as [|c s IH]; cbn [JS.mapChars]; [reflexivity|].
  now rewrite H, IH.
Qed.

(** X1: on a declared type of ASCII characters the mapper does not look at
    the case: the type in upper case and the type in lower case map to what
    the type itself maps to. *)
Theorem convertSQLiteType_ignores_case (sqliteType : string) :
  isAscii sqliteType = true ->
  convertSQLiteType (JS.toUpperCase sqliteType) = convertSQLiteType sqliteType
  /\ convertSQLiteType (JS.toLowerCase sqliteType)
     = convertSQLiteType sqliteType.
Proof.
  intros _. unfold convertSQLiteType, JS.toLowerCase, JS.toUpperCase.
  rewrite (mapChars_mapChars _ _ _ sqliteType lowerChar_upperChar).
  rewrite (mapChars_mapChars _ _ _ sqliteType upperChar_upperChar).
  rewrite (mapChars_mapChars _ _ _ sqliteType lowerChar_lowerChar).
  rewrite (mapChars_mapChars _ _ _ sqliteType upperChar_lowerChar).
  split; reflexivity.
Qed.

Lemma convertSQLiteType_ignores_case_witness :
  convertSQLiteType "VARCHAR(50)" = convertSQLiteType "VarChar(50)"
  /\ convertSQLiteType "varchar(50)" = convertSQLiteType "VarChar(50)".
Proof.
  exact (convertSQLiteType_ignores_case "VarChar(50)" eq_refl).
Defined.

Lemma mapChars_empty (f : ascii -> ascii) (s : string) :
  JS.mapChars f s = EmptyString -> s = EmptyString.
Proof. destruct s; [reflexivity | discriminate]. Qed.

(** X2: the mapped type is never empty, whatever the declared type is, the
    empty one of an untyped column included. *)
Theorem convertSQLiteType_not_empty (sqliteType : string) :
  convertSQLiteType sqliteType <> EmptyString.
Proof.
  unfold convertSQLiteType.
  destruct (JS.includes _ "int"); [discriminate|].
  destruct (JS.includes _ "text"); [discriminate|].
  destruct (_ || _); [discriminate|].
  destruct (JS.includes _ "blob"); [discriminate|].
  assert (Hup : forall needle,
             JS.includes (JS.toLowerCase sqliteType) needle = true ->
             needle <> EmptyString ->
             JS.toUpperCase sqliteType <> EmptyString).
  { intros needle H Hn E. apply mapChars_empty in E. subst sqliteType.
    cbn in H. destruct needle; [now apply Hn | discriminate]. }
  destruct (JS.includes _ "char") eqn:Hc;
    [apply (Hup _ Hc); discriminate|].
  destruct (JS.includes _ "varchar") eqn:Hv;
    [apply (Hup _ Hv); discriminate | discriminate].
Qed.

(** ** Column lines *)

Lemma includes_needle_head (s n1 n2 : string) :
  JS.includes s (n1 ++ n2) = true -> JS.includes s n1 = true.
Proof.
  rewrite !includes_iff. intros (a & b & ->).
  exists a, (n2 ++ b). now rewrite !app_assoc_s.
Qed.

(** X3: the line of a primary-key column whose declared type contains
    integer is the quoted name, the type [INT], [PRIMARY KEY],
    [AUTO_INCREMENT] and the default if there is one: the marker only ever
    follows the type [INT] and the key clause, and the not-null flag plays
    no part. *)
Theorem integer_key_line (col : ColumnInfo) :
  JS.truthy (pk col) = true ->
  JS.includes (JS.toLowerCase (type col)) "integer" = true ->
  columnDef col
  = "  `" ++ name col ++ "` INT PRIMARY KEY AUTO_INCREMENT" ++ defaultText col.
Proof.
  intros Hpk Hint. unfold columnDef, defaultText, convertSQLiteType.
  rewrite Hpk, Hint.
  rewrite (includes_needle_head _ "int" "eger" Hint).
  rewrite andb_false_r.
  destruct (dflt_value col); rewrite ?app_assoc_s; cbn [append];
    rewrite ?app_assoc_s, ?app_nil_r_s; reflexivity.
Qed.

Lemma integer_key_line_witness :
  columnDef Sample.integerKey = "  `id` INT PRIMARY KEY AUTO_INCREMENT".
Proof. exact (integer_key_line Sample.integerKey eq_refl eq_refl). Defined.

(** X4: the default of a column is written last and as the engine reports
    it: the line is the line of the same column without default, followed by
    [DEFAULT] and the text of the default, nothing quoted or escaped. *)
Theorem columnDef_default_last (col : ColumnInfo) (d : string) :
  dflt_value col = Some d ->
  columnDef col = columnDef (withoutDefault col) ++ " DEFAULT " ++ d.
Proof.
  intros H. unfold columnDef, withoutDefault.
  cbn [name type notnull pk dflt_value]. rewrite H. reflexivity.
Qed.

Lemma columnDef_default_last_witness :
  columnDef (mkColumnInfo 3 "label" "TEXT" 1 (Some "'n/a'") 0)
  = "  `label` TEXT NOT NULL" ++ " DEFAULT " ++ "'n/a'".
Proof.
  exact (columnDef_default_last
           (mkColumnInfo 3 "label" "TEXT" 1 (Some "'n/a'") 0) "'n/a'" eq_refl).
Defined.

Lemma borderSafe_primary_key (col : ColumnInfo) :
  forallb (borderSafe "PRIMARY KEY") (columnClauses col) = true.
Proof.
  unfold columnClauses, constraintClauses.
  destruct (JS.truthy (notnull col) && negb (JS.truthy (pk col)));
    destruct (JS.truthy (pk col));
    destruct (JS.includes (JS.toLowerCase (type col)) "integer");
    destruct (dflt_value col); reflexivity.
Qed.

Lemma clause_eq_dec_PrimaryKey (c : clause) :
  c = PrimaryKey \/ c <> PrimaryKey.
Proof. destruct c; (now left) || (right; discriminate). Qed.

Lemma primaryKey_clause_iff (col : ColumnInfo) :
  In PrimaryKey (columnClauses col) <-> JS.truthy (pk col) = true.
Proof.
  unfold columnClauses, constraintClauses.
  destruct (JS.truthy (notnull col)); destruct (JS.truthy (pk col));
    destruct (JS.includes (JS.toLowerCase (type col)) "integer");
    destruct (dflt_value col); cbn; intuition congruence.
Qed.

(** X5: the line of a column carries the clause PRIMARY KEY exactly when
    the primary-key flag of the column is set; when no other clause of the
    line has PRIMARY KEY in its own text, the text occurs in the line
    exactly then. *)
Theorem columnDef_primary_key (col : ColumnInfo) :
  (In PrimaryKey (columnClauses col) <-> JS.truthy (pk col) = true)
  /\ (JS.truthy (pk col) = true ->
      JS.includes (columnDef col) " PRIMARY KEY" = true)
  /\ ((forall c, In c (columnClauses col) -> c <> PrimaryKey ->
                 JS.includes (clauseText c) "PRIMARY KEY" = false) ->
      (JS.includes (columnDef col) "PRIMARY KEY" = true
       <-> JS.truthy (pk col) = true)).
Proof.
  split; [apply primaryKey_clause_iff|]. split.
  - intros H. apply primaryKey_clause_iff in H.
    exact (columnDef_includes_clause col PrimaryKey H).
  - intros Hfree. rewrite <- primaryKey_clause_iff.
    apply columnDef_includes_marker.
    + reflexivity.
    + intros _. apply borderSafe_primary_key.
    + reflexivity.
    + exact Hfree.
    + apply clause_eq_dec_PrimaryKey.
Qed.

Lemma columnDef_primary_key_witness :
  JS.includes (columnDef Sample.uuidKey) "PRIMARY KEY" = true
  /\ ~ JS.includes (columnDef Sample.nameColumn) "PRIMARY KEY" = true.
Proof.
  destruct (columnDef_primary_key Sample.uuidKey) as (_ & H & _).
  destruct (columnDef_primary_key Sample.nameColumn) as (_ & _ & K).
  split; [apply H; reflexivity|].
  intros E. apply K in E; [discriminate E|].
  intros c Hin Hc. cbn in Hin.
  destruct Hin as [<-|[<-|[<-|[]]]]; reflexivity.
Defined.

(** ** Literals of text cells *)

Lemma readBody_doubled (s rest : string) :
  startsWithQuote rest = false ->
  readBody (Spec.doubled s ++ "'" ++ rest) = Some (s, rest).
Proof.
  intros Hr. induction s as [|c s IH].
  - cbn [Spec.doubled append readBody]. rewrite Ascii.eqb_refl.
    destruct rest as [|d rest]; [reflexivity|].
    cbn [startsWithQuote] in Hr. now rewrite Hr.
  - cbn [Spec.doubled].
    destruct (Ascii.eqb_spec c "'"%char) as [->|Hc].
    + cbn [append readBody]. rewrite Ascii.eqb_refl.
      cbn [append] in IH. rewrite IH. reflexivity.
    + cbn [append readBody].
      destruct (Ascii.eqb_spec c "'"%char) as [E|_]; [contradiction|].
      cbn [append] in IH. rewrite IH. reflexivity.
Qed.

(** X6: a text value cannot close its own literal.  Whatever follows the
    literal in the statement, unless it starts with a quote, a reader of
    quoted literals stops right after the literal, with the value as content
    and the rest of the statement untouched. *)
Theorem quoteString_closes_itself (value rest : string) :
  startsWithQuote rest = false ->
  readLiteral (quoteString value ++ rest) = Some (value, rest).
Proof.
  intros Hr. unfold quoteString. rewrite replaceAll_quote_doubled.
  cbn [append readLiteral]. rewrite Ascii.eqb_refl.
  rewrite app_assoc_s. exact (readBody_doubled value rest Hr).
Qed.

Lemma quoteString_closes_itself_witness :
  readLiteral (quoteString "x'); DROP TABLE items; --" ++ ", 3.5);")
  = Some ("x'); DROP TABLE items; --", ", 3.5);").
Proof.
  exact (quoteString_closes_itself "x'); DROP TABLE items; --" ", 3.5);"
           eq_refl).
Defined.

Lemma parse_quoteString (s : string) :
  Spec.parseLiteral (quoteString s) = Some s.
Proof.
  unfold quoteString. rewrite replaceAll_quote_doubled.
  cbn [append Spec.parseLiteral]. rewrite Ascii.eqb_refl.
  apply unescape_doubled.
Qed.

(** X7: text cells are told apart by their rendering: two text cells that
    render alike hold the same text, and no text cell renders as a null cell
    does, not even the text NULL. *)
Theorem text_cells_render_apart (row : JS.object) (col s : string) :
  JS.get row col = JS.Str s ->
  JS.joinText (cellValue row col) <> "NULL"
  /\ (forall row' col', JS.get row' col' = JS.Null ->
                        JS.joinText (cellValue row' col') = "NULL")
  /\ (forall row' col' s',
         JS.get row' col' = JS.Str s' ->
         JS.joinText (cellValue row col) = JS.joinText (cellValue row' col') ->
         s = s').
Proof.
  intros H. unfold cellValue. rewrite H. cbn [JS.joinText].
  split; [discriminate|]. split.
  - intros row' col' H'. now rewrite H'.
  - intros row' col' s' H' E. rewrite H' in E. cbn [JS.joinText] in E.
    apply (f_equal Spec.parseLiteral) in E.
    rewrite !parse_quoteString in E. congruence.
Qed.

Lemma text_cells_render_apart_witness :
  JS.joinText (cellValue [("note", JS.Str "NULL")] "note") <> "NULL"
  /\ JS.joinText (cellValue [("note", JS.Null)] "note") = "NULL".
Proof.
  destruct (text_cells_render_apart [("note", JS.Str "NULL")] "note" "NULL"
              eq_refl) as (H1 & H2 & _).
  split; [exact H1|]. apply H2. reflexivity.
Defined.

(** ** The run of the exporter, further *)













Lemma errorOf_Rejected {A : Type} (o : outcome A) (e : error) :
  o = Rejected e <-> errorOf o = Some e.
Proof. destruct o; cbn; split; congruence. Qed.





(** X12: a database without listed tables gives the header alone: the run
    sends the catalog query and writes the banner line, the timestamp line
    and one empty line. *)
Theorem export_of_no_tables (w : World) (now outputFile : string)
  (master : list Sqlite.masterRow) :
  sqlite_master w = Resolved master ->
  Sqlite.selectTableNames master = [] ->
  let sqlContent :=
    "-- Exported from SQLite database" ++ JS.LF
      ++ "-- Generated on " ++ now ++ JS.LF in
  export w now outputFile []
  = (writeAnswer w outputFile sqlContent,
     [ DbAll tablesQuery true;
       FsWriteFile outputFile sqlContent
         (isResolved (writeAnswer w outputFile sqlContent)) ]).
Proof.
  intros Hm Hn. rewrite export_run. unfold documentBody, readsOfRun.
  rewrite Hm, Hn. cbn [blocksOf readsOfAll List.app]. cbv zeta.
  rewrite join_header. cbn [JS.join String.concat].
  now rewrite !app_nil_r_s.
Qed.

Lemma export_of_no_tables_witness :
  export Sample.cacheWorld "2024-01-15T10:30:00.000Z" "out.sql" []
  = (Resolved tt,
     [ DbAll tablesQuery true;
       FsWriteFile "out.sql"
         ("-- Exported from SQLite database" ++ JS.LF
            ++ "-- Generated on 2024-01-15T10:30:00.000Z" ++ JS.LF)
         true ]).
Proof.
  exact (export_of_no_tables Sample.cacheWorld "2024-01-15T10:30:00.000Z"
           "out.sql" Sample.cacheCatalog eq_refl eq_refl).
Defined.


Lemma concat_app_blank (sep : string) (l : list string) :
  l <> [] ->
  String.concat sep (l ++ [EmptyString])%list = String.concat sep l ++ sep.
Proof.
  induction l as [|x l IH]; intros Hl; [congruence|].
  destruct l as [|y l].
  - cbn [List.app String.concat]. now rewrite app_nil_r_s.
  - change ((x :: y :: l) ++ [EmptyString])%list
      with (x :: (y :: l) ++ [EmptyString])%list.
    change (String.concat sep (x :: (y :: l) ++ [EmptyString])%list)
      with (x ++ sep ++ String.concat sep ((y :: l) ++ [EmptyString])%list).
    rewrite IH by discriminate.
    change (String.concat sep (x :: y :: l))
      with (x ++ sep ++ String.concat sep (y :: l)).
    now rewrite !app_assoc_s.
Qed.

Lemma blockOf_ends_blank (w : World) (t : string) (b : list string) :
  blockOf w t = Resolved b -> exists init, b = (init ++ [EmptyString])%list.
Proof.
  unfold blockOf.
  destruct (pragmaAnswer w (pragmaQuery t)) as [columns|e]; [|discriminate].
  destruct (selectAnswer w (selectQuery t)) as [rows|e]; [|discriminate].
  intros H. injection H as <-.
  destruct (insertStatementsOf t rows) as [|i l].
  - eexists [_; _]. reflexivity.
  - eexists (_ :: _ :: _ :: _ :: i :: l). cbn [List.app]. reflexivity.
Qed.

Lemma blocksOf_ends_blank (w : World) (tables : list string)
  (body : list string) :
  blocksOf w tables = Resolved body ->
  body = [] \/ exists init, body = (init ++ [EmptyString])%list.
Proof.
  revert body; induction tables as [|t tables IH]; intros body H;
    cbn [blocksOf] in H.
  - left. congruence.
  - destruct (blockOf w t) as [b|e] eqn:Eb; [|discriminate].
    destruct (blocksOf w tables) as [bs|e]; [|discriminate].
    injection H as <-. right.
    destruct (IH bs eq_refl) as [->|(init & ->)].
    + rewrite app_nil_r. exact (blockOf_ends_blank w t b Eb).
    + exists (b ++ init)%list. now rewrite app_assoc.
Qed.

(** X13: a run writes to the output file it was given and nowhere else,
    and what it writes ends with a line feed: the last line of the
    document is always the empty one. *)
Theorem export_writes_output_file (w : World) (now outputFile : string)
  (path content : string) (ok : bool) :
  In (FsWriteFile path content ok) (snd (export w now outputFile [])) ->
  path = outputFile /\ exists text, content = text ++ JS.LF.
Proof.
  rewrite export_run. intros Hin.
  assert (Hnot : ~ In (FsWriteFile path content ok) (readsOfRun w)).
  { intros H.
    assert (Hf : In (FsWriteFile path content ok) (writes (readsOfRun w)))
      by (apply filter_In; split; [exact H | reflexivity]).
    rewrite writes_readsOfRun in Hf. contradiction. }
  destruct (documentBody w) as [body|e] eqn:Eb; cbn [snd List.app] in Hin;
    [|contradiction].
  cbv zeta in Hin.
  remember (JS.join JS.LF (header now ++ body)%list) as sqlContent eqn:Ec.
  apply in_app_or in Hin. destruct Hin as [Hin|[Hin|[]]]; [contradiction|].
  assert (Hp : path = outputFile) by congruence.
  assert (Hc : content = sqlContent) by congruence.
  clear Hin Hnot. subst path content sqlContent. split; [reflexivity|].
  assert (Hb : body = [] \/ exists init, body = (init ++ [EmptyString])%list).
  { unfold documentBody in Eb. destruct (sqlite_master w); [|discriminate].
    exact (blocksOf_ends_blank w _ body Eb). }
  unfold JS.join. destruct Hb as [->|(init & ->)].
  - rewrite app_nil_r. unfold header, push.
    rewrite concat_app_blank by (cbn; discriminate). eexists. reflexivity.
  - rewrite app_assoc, concat_app_blank.
    + eexists. reflexivity.
    + unfold header, push. cbn. discriminate.
Qed.

Lemma export_writes_output_file_witness :
  "out.sql" = "out.sql"
  /\ exists text,
      "-- Exported from SQLite database" ++ JS.LF
        ++ "-- Generated on 2024-01-15T10:30:00.000Z" ++ JS.LF
      = text ++ JS.LF.
Proof.
  apply (export_writes_output_file Sample.cacheWorld
           "2024-01-15T10:30:00.000Z" "out.sql" "out.sql" _ true).
  right. left. reflexivity.
Defined.

(** ** Rows and insertion statements in the document *)

Lemma insertStatementsOf_length (t : string) (rows : list JS.object) :
  List.length (insertStatementsOf t rows) = List.length rows.
Proof.
  destruct rows as [|row0 rows]; [reflexivity|].
  now rewrite insertStatementsOf_map, length_map.
Qed.

Lemma filter_all {A : Type} (f : A -> bool) (l : list A) :
  (forall x, In x l -> f x = true) -> filter f l = l.
Proof.
  induction l as [|a l IH]; intros H; [reflexivity|].
  cbn [filter]. rewrite (H a) by now left.
  f_equal. apply IH. intros x Hx. apply H. now right.
Qed.

Lemma insertStatements_are_inserts (t : string) (rows : list JS.object) :
  filter isInsert (insertStatementsOf t rows) = insertStatementsOf t rows.
Proof.
  apply filter_all. intros x Hx.
  apply insertStatementsOf_shape in Hx. destruct Hx as [rest ->].
  unfold isInsert, JS.startsWith. apply prefix_app.
Qed.

Lemma Resolved_inj {A : Type} (a b : A) : Resolved a = Resolved b -> a = b.
Proof. congruence. Qed.

Lemma inserts_in_block (w : World) (t : string) (b : list string) :
  blockOf w t = Resolved b ->
  filter isInsert b = insertStatementsOf t (rowsOf w t).
Proof.
  unfold blockOf, rowsOf. intros H.
  destruct (pragmaAnswer w (pragmaQuery t)) as [columns|e]; [|discriminate].
  destruct (selectAnswer w (selectQuery t)) as [rows|e]; [|discriminate].
  apply Resolved_inj in H. symmetry in H.
  subst b. rewrite filter_app.
  change (filter isInsert
            ["-- Table: " ++ t; createTableText t columns; EmptyString])
    with (@nil string).
  cbn [List.app].
  pose proof (insertStatements_are_inserts t rows) as Hi.
  destruct (insertStatementsOf t rows) as [|i l]; [reflexivity|].
  change (filter isInsert (("-- Data for table: " ++ t) :: (i :: l) ++ [EmptyString]))
    with (filter isInsert ((i :: l) ++ [EmptyString])).
  rewrite filter_app, Hi. cbn [filter]. 
  change (isInsert EmptyString) with false. cbv iota. now rewrite app_nil_r.
Qed.

Lemma inserts_in_blocks (w : World) (tables : list string) (bs : list string) :
  blocksOf w tables = Resolved bs ->
  filter isInsert bs
  = flat_map (fun t => insertStatementsOf t (rowsOf w t)) tables.
Proof.
  revert bs; induction tables as [|t tables IH]; intros bs H;
    cbn [blocksOf] in H.
  - injection H as <-. reflexivity.
  - destruct (blockOf w t) as [b|e] eqn:Eb; [|discriminate].
    destruct (blocksOf w tables) as [bs'|e]; [|discriminate].
    injection H as <-. rewrite filter_app. cbn [flat_map].
    now rewrite (inserts_in_block w t b Eb), (IH bs' eq_refl).
Qed.

Lemma flat_map_length {A B : Type} (f : A -> list B) (l : list A) :
  List.length (flat_map f l) = list_sum (map (fun x => List.length (f x)) l).
Proof.
  induction l as [|a l IH]; [reflexivity|].
  cbn [flat_map map list_sum]. now rewrite length_app, IH.
Qed.

(** X14: no row is lost and none is written twice: the insertion
    statements of the document are those of the listed tables in the order
    of the listing, one per row the engine returned, so the document has as
    many of them as the listed tables have rows. *)
Theorem one_insert_per_row (w : World) (now : string)
  (master : list Sqlite.masterRow) (lines : list string) (tr : trace) :
  sqlite_master w = Resolved master ->
  buildStatements w now [] = (Resolved lines, tr) ->
  filter isInsert lines
  = flat_map (fun t => insertStatementsOf t (rowsOf w t))
      (Sqlite.selectTableNames master)
  /\ List.length (filter isInsert lines)
     = list_sum (map (fun t => List.length (rowsOf w t))
                   (Sqlite.selectTableNames master)).
Proof.
  intros Hm Hb. rewrite buildStatements_run in Hb.
  unfold documentBody in Hb. rewrite Hm in Hb.
  destruct (blocksOf w (Sqlite.selectTableNames master)) as [bs|e] eqn:Ebs;
    [|discriminate].
  cbn [mapOutcome] in Hb.
  assert (El : lines = (header now ++ bs)%list) by congruence.
  clear Hb. subst lines.
  assert (Hf : filter isInsert (header now ++ bs)%list = filter isInsert bs).
  { rewrite filter_app. reflexivity. }
  rewrite Hf, (inserts_in_blocks w _ bs Ebs). split; [reflexivity|].
  rewrite flat_map_length. f_equal. apply map_ext.
  intros t. apply insertStatementsOf_length.
Qed.

Lemma one_insert_per_row_witness :
  List.length
    (filter isInsert
       (match fst (buildStatements (Sample.world EmptyString)
                     "2024-01-15T10:30:00.000Z" []) with
        | Resolved lines => lines
        | Rejected _ => []
        end))
  = 2%nat.
Proof.
  refine (proj2 (one_insert_per_row (Sample.world EmptyString)
                   "2024-01-15T10:30:00.000Z" Sample.catalog _ _ eq_refl _)).
  vm_compute. reflexivity.
Defined.

(** X15: a table whose row query returns rows contributes its comment, its
    table definition, a blank line, its data comment, one insertion
    statement per row and a blank line, in this order and nothing else. *)
Theorem table_with_rows_block (w : World) (now t : string)
  (columns : list ColumnInfo) (row0 : JS.object) (rows : list JS.object)
  (master : list Sqlite.masterRow) (lines : list string) (tr : trace) :
  pragmaAnswer w (pragmaQuery t) = Resolved columns ->
  selectAnswer w (selectQuery t) = Resolved (row0 :: rows) ->
  sqlite_master w = Resolved master ->
  In t (Sqlite.selectTableNames master) ->
  buildStatements w now [] = (Resolved lines, tr) ->
  exists before after,
    lines
    = (before
         ++ [("-- Table: " ++ t)%string; createTableText t columns; EmptyString;
             ("-- Data for table: " ++ t)%string]
         ++ insertStatementsOf t (row0 :: rows)
         ++ [EmptyString] ++ after)%list
    /\ List.length (insertStatementsOf t (row0 :: rows))
       = S (List.length rows).
Proof.
  intros Hp Hs Hm Hin Hb. rewrite buildStatements_run in Hb.
  unfold documentBody in Hb. rewrite Hm in Hb.
  destruct (blocksOf w (Sqlite.selectTableNames master)) as [bs|e] eqn:Ebs;
    [|discriminate].
  cbn [mapOutcome] in Hb.
  assert (El : lines = (header now ++ bs)%list) by congruence.
  clear Hb. subst lines.
  destruct (blocksOf_block w _ bs t Ebs Hin) as (b & before & after & Hbt & ->).
  unfold blockOf in Hbt. rewrite Hp, Hs in Hbt.
  exists (header now ++ before)%list, after. split.
  - apply Resolved_inj in Hbt. symmetry in Hbt.
    subst b.
    rewrite insertStatementsOf_map. cbn [map List.app].
    rewrite <- !app_assoc. reflexivity.
  - apply (insertStatementsOf_length t (row0 :: rows)).
Qed.

Lemma table_with_rows_block_witness :
  exists before after,
    match fst (buildStatements (Sample.world EmptyString)
                 "2024-01-15T10:30:00.000Z" []) with
    | Resolved lines => lines
    | Rejected _ => []
    end
    = (before
         ++ ["-- Table: items"; createTableText "items" Sample.itemsColumns;
             EmptyString; "-- Data for table: items"]
         ++ insertStatementsOf "items" Sample.itemsRows
         ++ [EmptyString] ++ after)%list
    /\ List.length (insertStatementsOf "items" Sample.itemsRows) = 2%nat.
Proof.
  refine (table_with_rows_block (Sample.world EmptyString)
            "2024-01-15T10:30:00.000Z" "items" Sample.itemsColumns
            (hd [] Sample.itemsRows) (tl Sample.itemsRows) Sample.catalog
            _ _ eq_refl eq_refl eq_refl _ _).
  - right. left. reflexivity.
  - vm_compute. reflexivity.
Defined.

(** ** The listing of the tables, further *)

Lemma getTables_run (w : World) (master : list Sqlite.masterRow) (tr : trace) :
  sqlite_master w = Resolved master ->
  getTables w tr
  = (Resolved (Sqlite.selectTableNames master),
     (tr ++ [DbAll tablesQuery true])%list).
Proof.
  intros H. unfold getTables, callback, resolve. now rewrite H.
Qed.

(** X16: [getTables] resolves with names in ascending binary order, each
    strictly above the one before when the catalog has no name twice. *)
Theorem getTables_ascending (w : World) (master : list Sqlite.masterRow)
  (tr : trace) :
  sqlite_master w = Resolved master ->
  exists names,
    fst (getTables w tr) = Resolved names
    /\ Sorted Sqlite.nameLe names
    /\ (NoDup (map Sqlite.mname master) -> Sorted Sqlite.nameLt names).
Proof.
  intros H. exists (Sqlite.selectTableNames master).
  rewrite (getTables_run w master tr H). split; [reflexivity|].
  rewrite selectTableNames_eq. split; [apply orderBy_sorted|].
  intros Hnd. apply orderBy_strict, kept_names_nodup, Hnd.
Qed.

Lemma getTables_ascending_witness :
  exists names,
    fst (getTables (Sample.world EmptyString) []) = Resolved names
    /\ Sorted Sqlite.nameLe names
    /\ (NoDup (map Sqlite.mname Sample.catalog) -> Sorted Sqlite.nameLt names).
Proof.
  exact (getTables_ascending (Sample.world EmptyString) Sample.catalog []
           eq_refl).
Defined.

(** X17: the names [getTables] resolves with are those of the entries of
    the catalog that have the type table and a name the pattern of the query
    does not match, each as often as the catalog has it.  So an index, a
    view or a trigger is never listed, and no name with the reserved prefix
    is. *)
Theorem getTables_lists_tables (w : World) (master : list Sqlite.masterRow)
  (tr : trace) :
  sqlite_master w = Resolved master ->
  exists names,
    fst (getTables w tr) = Resolved names
    /\ Permutation names
         (map Sqlite.mname
            (filter (fun r => String.eqb (Sqlite.mtype r) "table"
                              && negb (Sqlite.like "sqlite_%" (Sqlite.mname r)))
                    master))
    /\ (forall n, In n names ->
          Sqlite.reservedName n = false
          /\ exists r, In r master /\ Sqlite.mname r = n
                       /\ Sqlite.mtype r = "table").
Proof.
  intros H. exists (Sqlite.selectTableNames master).
  rewrite (getTables_run w master tr H). split; [reflexivity|].
  rewrite selectTableNames_eq. split.
  - apply Permutation_sym, orderBy_perm.
  - intros n Hn.
    apply (Permutation_in _ (Permutation_sym (orderBy_perm _))) in Hn.
    apply in_map_iff in Hn. destruct Hn as (r & <- & Hr).
    apply filter_In in Hr. destruct Hr as [Hin Hr].
    apply andb_true_iff in Hr. destruct Hr as [Ht Hl].
    apply negb_true_iff in Hl. split.
    + destruct (Sqlite.reservedName (Sqlite.mname r)) eqn:E; [|reflexivity].
      apply reserved_names_excluded in E. congruence.
    + exists r. repeat split; [exact Hin|]. now apply String.eqb_eq.
Qed.

Lemma getTables_lists_tables_witness :
  fst (getTables (Sample.world EmptyString) []) = Resolved ["audit"; "items"].
Proof.
  destruct (getTables_lists_tables (Sample.world EmptyString) Sample.catalog
              [] eq_refl) as (names & H & _).
  rewrite H. vm_compute in H. exact (eq_sym H).
Defined.

(** X18: the document has one table definition for each name listed, in the
    order of the listing, made of the columns the schema query returned for
    that name; no other line of the document starts a table definition. *)
Theorem one_definition_per_listed_table (w : World) (now : string)
  (master : list Sqlite.masterRow) (lines : list string) (tr : trace) :
  sqlite_master w = Resolved master ->
  buildStatements w now [] = (Resolved lines, tr) ->
  Forall2
    (fun line t =>
       exists columns,
         pragmaAnswer w (pragmaQuery t) = Resolved columns
         /\ line = createTableText t columns)
    (filter isCreateTable lines) (Sqlite.selectTableNames master)
  /\ List.length (filter isCreateTable lines)
     = List.length (Sqlite.selectTableNames master).
Proof.
  intros Hm Hb. rewrite buildStatements_run in Hb.
  unfold documentBody in Hb. rewrite Hm in Hb.
  destruct (blocksOf w (Sqlite.selectTableNames master)) as [bs|e] eqn:Ebs;
    [|discriminate].
  cbn [mapOutcome] in Hb.
  assert (El : lines = (header now ++ bs)%list) by congruence.
  clear Hb. subst lines.
  assert (Hf : filter isCreateTable (header now ++ bs)%list
               = filter isCreateTable bs).
  { rewrite filter_app. reflexivity. }
  rewrite Hf.
  pose proof (createTable_in_blocks w _ bs Ebs) as H2.
  split; [exact H2 | exact (Forall2_length H2)].
Qed.

Lemma one_definition_per_listed_table_witness :
  List.length
    (filter isCreateTable
       (match fst (buildStatements (Sample.world EmptyString)
                     "2024-01-15T10:30:00.000Z" []) with
        | Resolved lines => lines
        | Rejected _ => []
        end))
  = List.length (Sqlite.selectTableNames Sample.catalog).
Proof.
  refine (proj2 (one_definition_per_listed_table (Sample.world EmptyString)
                   "2024-01-15T10:30:00.000Z" Sample.catalog _ _ eq_refl _)).
  vm_compute. reflexivity.
Defined.

(** ** The command line *)

Lemma includesArg_In (args : list string) (a : string) :
  Cli.includesArg args a = true <-> In a args.
Proof.
  unfold Cli.includesArg. rewrite existsb_exists. split.
  - intros (x & Hx & E). apply String.eqb_eq in E. now subst.
  - intros H. exists a. split; [exact H | apply String.eqb_refl].
Qed.

(** X19: [parseArgs] returns [null] exactly when there is no argument
    after the two of the runtime, or one of the arguments, at any place, is
    [--help] or [-h]; a help flag wins over the files given with it. *)
Theorem parseArgs_null_iff (P : Cli.PathLib) (argv : list string) :
  Cli.isNull (Cli.parseArgs P argv) = true
  <-> skipn 2 argv = []
      \/ In "--help" (skipn 2 argv) \/ In "-h" (skipn 2 argv).
Proof.
  unfold Cli.parseArgs. rewrite <- !includesArg_In.
  destruct (skipn 2 argv) as [|a args] eqn:E.
  - cbn. tauto.
  - cbn [List.length Nat.eqb orb Nat.ltb Nat.leb].
    destruct (Cli.includesArg (a :: args) "--help");
      destruct (Cli.includesArg (a :: args) "-h"); cbn [orb Cli.isNull];
      split; intros H; try reflexivity; try discriminate H;
      try (destruct H as [H|[H|H]]; discriminate H); tauto.
Qed.

(** X20: the second test of [parseArgs], for fewer than one argument, is
    never the one that answers: with no argument the first test has already
    returned, so the message asking for a database file is never printed. *)
Theorem parseArgs_never_misses_input (P : Cli.PathLib) (argv : list string) :
  Cli.parseArgs P argv <> Cli.MissingInput.
Proof.
  unfold Cli.parseArgs. destruct (skipn 2 argv) as [|a args].
  - cbn. discriminate.
  - cbn [List.length Nat.eqb orb Nat.ltb Nat.leb].
    destruct (_ || _); discriminate.
Qed.

(** X21: without a help flag, the input file is the first argument and the
    output file is the second one when it is there and not empty; a missing
    or empty second argument gives the default made from the input file, and
    arguments after the second are ignored. *)
Theorem parseArgs_files (P : Cli.PathLib) (argv : list string)
  (input : string) (rest : list string) :
  skipn 2 argv = input :: rest ->
  ~ In "--help" (input :: rest) ->
  ~ In "-h" (input :: rest) ->
  Cli.parseArgs P argv
  = Cli.Parsed input
      match rest with
      | [] => Cli.defaultOutput P input
      | output :: _ =>
          if String.eqb output EmptyString then Cli.defaultOutput P input
          else output
      end.
Proof.
  intros E Hh Hs. unfold Cli.parseArgs. rewrite E.
  rewrite <- includesArg_In in Hh, Hs.
  apply not_true_is_false in Hh. apply not_true_is_false in Hs.
  rewrite Hh, Hs. cbn [List.length Nat.eqb orb Nat.ltb Nat.leb hd nth_error].
  now destruct rest.
Qed.

Lemma parseArgs_files_witness :
  Cli.parseArgs SampleCli.paths
    ["bun"; "index.ts"; "data/shop.db"; EmptyString; "x"]
  = Cli.Parsed "data/shop.db" "data/shop_export.sql".
Proof.
  refine (parseArgs_files SampleCli.paths
            ["bun"; "index.ts"; "data/shop.db"; EmptyString; "x"]
            "data/shop.db" [EmptyString; "x"] eq_refl _ _);
    cbn; intros [H|[H|[H|[]]]]; discriminate H.
Defined.

Lemma existsb_map_Exporter (f : Cli.hostEffect -> bool) (run : trace) :
  (forall e, f (Cli.Exporter e) = false) ->
  existsb f (map Cli.Exporter run) = false.
Proof.
  intros H. induction run as [|e run IH]; [reflexivity|].
  cbn [map existsb]. now rewrite H, IH.
Qed.

Ltac main_cases h argv now :=
  unfold Cli.main, Cli.checkFileExists;
  destruct (Cli.parseArgs (Cli.paths h) argv) as [| |input output] eqn:Eparse;
  [ | |
    destruct (Cli.accessAnswer h input) as [[]|eAccess] eqn:Eaccess;
    [ destruct (Cli.statInput h input) as [[|]|eStat] eqn:Estat;
      [ destruct (Cli.needsMkdir (Cli.pathDirname (Cli.paths h) output))
          eqn:Eneeds;
        [ destruct (Cli.mkdirAnswer h (Cli.pathDirname (Cli.paths h) output))
            as [[]|eMkdir] eqn:Emkdir | ];
        try (destruct (export (Cli.database h input) now output [])
               as [[[]|eExport] run] eqn:Eexport;
             [ destruct (Cli.statOutput h output) as [[]|eOut] eqn:Eout | ])
      | | ]
    | ] ];
  cbn [negb fst snd isResolved].

Ltac trace_flags :=
  rewrite ?existsb_app;
  rewrite ?(existsb_map_Exporter Cli.isNewDatabase) by reflexivity;
  rewrite ?(existsb_map_Exporter Cli.isClose) by reflexivity;
  rewrite ?(existsb_map_Exporter Cli.isMkdir) by reflexivity;
  cbn [existsb Cli.isNewDatabase Cli.isClose Cli.isMkdir Cli.isExporter
         orb List.app].

(** X22: [main] opens the database only after the input file has passed
    its checks: an exporter is made exactly when the arguments give the
    files, [fs.access] succeeds on the input file, [fs.stat] says it is a
    file and, where a directory had to be made for the output, making it
    succeeded; and no query or write of the exporter happens without. *)
Theorem main_opens_after_checks (h : Cli.Host) (argv : list string)
  (now : string) :
  (existsb Cli.isNewDatabase (snd (Cli.main h argv now)) = true
   <-> exists input output,
       Cli.parseArgs (Cli.paths h) argv = Cli.Parsed input output
       /\ isResolved (Cli.accessAnswer h input) = true
       /\ Cli.statInput h input = Resolved true
       /\ (Cli.needsMkdir (Cli.pathDirname (Cli.paths h) output) = true ->
           isResolved (Cli.mkdirAnswer h (Cli.pathDirname (Cli.paths h) output))
           = true))
  /\ (existsb Cli.isExporter (snd (Cli.main h argv now)) = true ->
      existsb Cli.isNewDatabase (snd (Cli.main h argv now)) = true).
Proof.
  split.
  - main_cases h argv now; trace_flags; rewrite ?orb_true_r;
      (split;
       [ try discriminate; intros _; exists input, output;
         rewrite ?Eaccess, ?Estat, ?Emkdir;
         repeat split; try reflexivity; congruence
       | try reflexivity;
         intros (i & o & Ep & Ha & Hs & Hm);
         try discriminate Ep; injection Ep as <- <-;
         rewrite ?Eaccess, ?Estat in *; try discriminate;
         try (specialize (Hm Eneeds); rewrite Emkdir in Hm); discriminate ]).
  - main_cases h argv now; trace_flags; rewrite ?orb_true_r;
      try reflexivity; try discriminate; intros _; reflexivity.
Qed.

Lemma main_opens_after_checks_witness :
  existsb Cli.isNewDatabase
    (snd (Cli.main (SampleCli.host "nowhere") SampleCli.argv
            "2024-01-15T10:30:00.000Z")) = true
  /\ existsb Cli.isNewDatabase
       (snd (Cli.main (SampleCli.host "data/shop.db") SampleCli.argv
               "2024-01-15T10:30:00.000Z")) = false.
Proof.
  split.
  - apply (proj1 (main_opens_after_checks (SampleCli.host "nowhere")
                    SampleCli.argv "2024-01-15T10:30:00.000Z")).
    exists "data/shop.db", "out.sql".
    repeat split; try reflexivity; discriminate.
  - destruct (existsb Cli.isNewDatabase
                (snd (Cli.main (SampleCli.host "data/shop.db") SampleCli.argv
                        "2024-01-15T10:30:00.000Z"))) eqn:E; [|reflexivity].
    apply (proj1 (main_opens_after_checks (SampleCli.host "data/shop.db")
                    SampleCli.argv "2024-01-15T10:30:00.000Z")) in E.
    destruct E as (i & o & Ep & Ha & _). injection Ep as <- <-.
    discriminate Ha.
Defined.



(** X24: [main] closes the database exactly when the export has resolved:
    when the export rejects, [main] exits with the connection still open,
    and it never closes a database it has not exported. *)
Theorem main_closes_after_export (h : Cli.Host) (argv : list string)
  (now : string) :
  existsb Cli.isClose (snd (Cli.main h argv now)) = true
  <-> exists input output,
      Cli.parseArgs (Cli.paths h) argv = Cli.Parsed input output
      /\ existsb Cli.isNewDatabase (snd (Cli.main h argv now)) = true
      /\ fst (export (Cli.database h input) now output []) = Resolved tt.
Proof.
  main_cases h argv now; trace_flags; rewrite ?orb_true_r;
    (split;
     [ try discriminate; intros _; exists input, output;
       rewrite ?Eexport; repeat split; reflexivity
     | try reflexivity;
       intros (i & o & Ep & Hn & He);
       try discriminate Ep; try discriminate Hn; injection Ep as <- <-;
       rewrite ?Eexport in *; discriminate ]).
Qed.

Lemma main_closes_after_export_witness :
  existsb Cli.isClose
    (snd (Cli.main (SampleCli.host "nowhere") SampleCli.argv
            "2024-01-15T10:30:00.000Z")) = true.
Proof.
  apply (proj2 (main_closes_after_export (SampleCli.host "nowhere")
                  SampleCli.argv "2024-01-15T10:30:00.000Z")).
  exists "data/shop.db", "out.sql". repeat split; reflexivity.
Defined.

(** X25: [main] makes a directory only for an output file whose directory
    name is neither empty nor the dot, only that directory, and only once
    the input file has passed its checks. *)
Theorem main_makes_output_directory (h : Cli.Host) (argv : list string)
  (now : string) (dir : string) (ok : bool) :
  In (Cli.FsMkdir dir ok) (snd (Cli.main h argv now)) ->
  exists input output,
    Cli.parseArgs (Cli.paths h) argv = Cli.Parsed input output
    /\ dir = Cli.pathDirname (Cli.paths h) output
    /\ dir <> EmptyString /\ dir <> "."
    /\ ok = isResolved (Cli.mkdirAnswer h dir)
    /\ isResolved (Cli.accessAnswer h input) = true
    /\ Cli.statInput h input = Resolved true.
Proof.
  assert (Hmap : forall run, ~ In (Cli.FsMkdir dir ok) (map Cli.Exporter run)).
  { intros run H. apply in_map_iff in H. destruct H as (e & E & _).
    discriminate E. }
  assert (Hneeds : forall d, Cli.needsMkdir d = true ->
                             d <> EmptyString /\ d <> ".").
  { intros d H. unfold Cli.needsMkdir in H. apply andb_true_iff in H.
    destruct H as [H1 H2]. apply negb_true_iff in H1, H2.
    split; intros ->; discriminate. }
  main_cases h argv now; intros Hin;
    repeat (apply in_app_or in Hin; destruct Hin as [Hin|Hin]);
    cbn [In] in Hin;
    repeat match goal with
           | H : _ \/ _ |- _ => destruct H as [H|H]
           | H : False |- _ => contradiction
           | H : In _ (map Cli.Exporter _) |- _ => now apply Hmap in H
           end;
    try discriminate;
    injection Hin as <- <-; exists input, output;
    destruct (Hneeds _ Eneeds) as [H1 H2];
    rewrite ?Eaccess, ?Estat, ?Emkdir; repeat split; assumption.
Qed.

Lemma main_makes_output_directory_witness :
  exists input output,
    Cli.parseArgs SampleCli.paths
      ["bun"; "index.ts"; "data/shop.db"; "exports/out.sql"]
    = Cli.Parsed input output
    /\ "exports" = Cli.pathDirname SampleCli.paths output
    /\ "exports" <> EmptyString /\ "exports" <> "."
    /\ true = isResolved (Cli.mkdirAnswer (SampleCli.host "nowhere") "exports")
    /\ isResolved (Cli.accessAnswer (SampleCli.host "nowhere") input) = true
    /\ Cli.statInput (SampleCli.host "nowhere") input = Resolved true.
Proof.
  apply (main_makes_output_directory (SampleCli.host "nowhere")
           ["bun"; "index.ts"; "data/shop.db"; "exports/out.sql"]
           "2024-01-15T10:30:00.000Z" "exports" true).
  vm_compute. right. right. left. reflexivity.
Defined.
